(** * Al: progressive-hashing duplicate detection (al.py)

    A shallow embedding of the duplicate resolver of [al.py]:
    [get_hash], [add_unique_file_to_table], [rehash_and_add_to_table] and
    [find_duplicate_files], together with the pieces of the Python runtime
    they rely on ([defaultdict(list)], [os.path.splitext], [str.rfind]).

    Modelling choices.
    - A Python [dict] keeps its keys in insertion order and the code iterates
      over [items()], so a table is an association list in insertion order.
    - The tables are mutated in place by the source; the model passes them
      explicitly and returns them, also when an exception is raised.
    - [hashlib.sha256(..).hexdigest()] and the file system are parameters
      of the development (Section variables).
    - Every function reports the files it tried to hash and the calls of
      [find_duplicate_files] in a list of events, so that statements about
      what is (not) hashed can be made. *)

From Stdlib Require Import List String Ascii ZArith Lia Bool Permutation.
From Stdlib Require Import Strings.Byte.
From Stdlib Require Import Sorting.Sorted.
Import ListNotations.
Local Open Scope string_scope.
Local Open Scope Z_scope.
Local Open Scope list_scope.

(** ** Python values used by the program *)

(** A file handle is the file's name, as returned by [os.listdir]. *)
Definition file := string.

(** Keys of the source table: byte sizes (Python [int]) at level 0 and
    hexadecimal digests (Python [str]) afterwards. *)
Inductive pykey : Type :=
| KInt (n : Z)
| KStr (s : string).

(** The exceptions the resolver can raise. *)
Inductive exn : Type :=
| Exception (msg : string)
| IndexError (msg : string).

(** How a call ends: it returns [None], or an exception leaves it. *)
Inductive outcome : Type :=
| Returned
| Raised (e : exn).

(** ** Dictionary keys *)

(** [==] on the keys of a dictionary. *)
Class PyKey (K : Type) := { key_eqb : K -> K -> bool }.

(** [key_eqb] decides equality. *)
Class PyKeyLaws (K : Type) {HK : PyKey K} := {
  key_eqb_eq : forall a b : K, key_eqb a b = true <-> a = b
}.
Arguments PyKeyLaws K {HK}.

Definition pykey_eqb (a b : pykey) : bool :=
  match a, b with
  | KInt n, KInt m => Z.eqb n m
  | KStr s, KStr t => String.eqb s t
  | _, _ => false
  end.

#[export] Instance PyKey_pykey : PyKey pykey := {| key_eqb := pykey_eqb |}.

#[export] Instance PyKey_string : PyKey string := {| key_eqb := String.eqb |}.

(** ** [defaultdict(list)] *)

Module Dict.
Section Dict.
Context {K : Type} `{PyKey K}.

  (** Insertion-ordered table from keys to lists of files. *)
Definition t := list (K * list file).

  (** [d[k]] read without inserting; a missing key reads as [[]]. *)
Fixpoint get (k : K) (d : t) : list file :=
    match d with
    | [] => []
    | (k', fs) :: d' => if key_eqb k k' then fs else get k d'
    end.

  (** [d[k].extend(files)]: a missing key is created at the end. *)
Fixpoint extend (k : K) (files : list file) (d : t) : t :=
    match d with
    | [] => [(k, files)]
    | (k', fs) :: d' =>
        if key_eqb k k' then (k', fs ++ files) :: d'
        else (k', fs) :: extend k files d'
    end.

  (** [d[k].append(f)]. *)
Definition append (k : K) (f : file) (d : t) : t := extend k [f] d.

  (** [d.keys()]. *)
Definition keys (d : t) : list K := map fst d.

  (** All the files of the table, bucket after bucket. *)
Definition files (d : t) : list file := List.concat (List.map snd d).

  (** The number of file handles held by the table. *)
Definition total (d : t) : nat := List.length (files d).

  (** [not d] *)
Definition is_empty (d : t) : bool :=
    match d with [] => true | _ => false end.

End Dict.
Arguments t K : clear implicits.
End Dict.

(** ** [os.path.splitext] (posixpath) and [str] helpers *)

(** [p.rfind(c)] for a one-character [c]: the highest index of [c] in [p],
    or [-1]. *)
Fixpoint rfind (c : ascii) (p : string) : Z :=
  match p with
  | EmptyString => -1
  | String a p' =>
      let r := rfind c p' in
      if 0 <=? r then r + 1
      else if Ascii.eqb a c then 0 else -1
  end.

(** [p[i:]] for [0 <= i]. *)
Definition slice_from (i : Z) (p : string) : string :=
  substring (Z.to_nat i) (String.length p - Z.to_nat i)%nat p.

(** [p[:i]] for [0 <= i]. *)
Definition slice_to (i : Z) (p : string) : string :=
  substring 0 (Z.to_nat i) p.

(** [p[i:i+1]] for [0 <= i]. *)
Definition slice_one (i : Z) (p : string) : string :=
  substring (Z.to_nat i) 1 p.

(** The [while filenameIndex < dotIndex] loop of [genericpath._splitext]:
    [true] when a character other than the dot is met before [dotIndex];
    [n] is the number of indices left to inspect. *)
Fixpoint skip_leading_dots (p : string) (filenameIndex : Z) (n : nat) : bool :=
  match n with
  | O => false
  | S n' =>
      if negb (String.eqb (slice_one filenameIndex p) ".") then true
      else skip_leading_dots p (filenameIndex + 1) n'
  end.

(** [os.path.splitext(p)] with [sep = '/'], [altsep = None], [extsep = '.']. *)
Definition splitext (p : string) : string * string :=
  let sepIndex := rfind "/"%char p in
  let dotIndex := rfind "."%char p in
  if (dotIndex >? sepIndex)
     && skip_leading_dots p (sepIndex + 1) (Z.to_nat (dotIndex - (sepIndex + 1)))
  then (slice_to dotIndex p, slice_from dotIndex p)
  else (p, "").

(** [file.startswith(".")] *)
Definition is_hidden_file (f : file) : bool :=
  match f with
  | String "."%char _ => true
  | _ => false
  end.

(** ** The resolver *)

Definition byte_chunk : Z := 1024.

(** The label computed on line 77 of [al.py]. *)
Definition extension_label (f : file) : string :=
  let file_extension := snd (splitext f) in
  if String.eqb file_extension "" then "no-extension-files"
  else (slice_from 1 file_extension ++ "-files")%string.

(** [add_unique_file_to_table(file, destination_table)] *)
Definition add_unique_file_to_table (f : file) (destination_table : Dict.t string)
  : Dict.t string :=
  Dict.append (extension_label f) f destination_table.

(** What a run does that is not visible in the tables, in order:
    [Enter iteration source_table] is a call of [find_duplicate_files] with
    the source table as it is on entry; [Hash f iteration] is one round of
    the loop of [rehash_and_add_to_table]: [f] is opened and, when that
    succeeds, [get_hash] is called on it with that [iteration]. *)
Inductive event : Type :=
| Enter (iteration : Z) (source_table : Dict.t pykey)
| Hash (f : file) (iteration : Z).

(** The state of the two tables when a call of [find_duplicate_files] ends,
    what it did, and how it ended. *)
Record result : Type := mkResult {
  source : Dict.t pykey;
  destination : Dict.t string;
  events : list event;
  ending : outcome
}.

Section Resolver.

  (** [hashlib.sha256(data).hexdigest()] *)
Variable sha256_hexdigest : list byte -> string.

  (** The directory: the bytes of each file, [None] for a file on which
      [open] or [read] raises [OSError]. The directory does not change
      during a run. *)
Variable fs : file -> option (list byte).

  (** [get_hash(file_object, iteration)]; the file object is a fresh stream
      over the file's bytes. *)
Definition get_hash (file_object : list byte) (iteration : Z) : exn + string :=
    if iteration =? 0 then
      let file_contents := firstn (Z.to_nat byte_chunk) file_object in
      inr (sha256_hexdigest file_contents)
    else if iteration =? 1 then
      let file_contents := file_object in
      inr (sha256_hexdigest file_contents)
    else inl (Exception "Error encountered in get_hash()").

  (** [rehash_and_add_to_table(list_of_files, destination_table, iteration)]:
      the table as the call leaves it, the events and the outcome. *)
Fixpoint rehash_and_add_to_table (list_of_files : list file)
      (destination_table : Dict.t pykey) (iteration : Z)
    : Dict.t pykey * list event * outcome :=
    match list_of_files with
    | [] => (destination_table, [], Returned)
    | f :: rest =>
        match fs f with
        | None =>
            (destination_table, [Hash f iteration],
             Raised (Exception "Unable to read current file"))
        | Some file_object =>
            match get_hash file_object iteration with
            | inl e => (destination_table, [Hash f iteration], Raised e)
            | inr current_hash =>
                let '(d, evs, o) :=
                  rehash_and_add_to_table rest
                    (Dict.append (KStr current_hash) f destination_table)
                    iteration in
                (d, Hash f iteration :: evs, o)
            end
        end
    end.

  (** Lines 96-99: the loop of the last level. [list_of_files[0]] raises
      [IndexError] on an empty list. *)
Fixpoint classify_groups (items : Dict.t pykey)
      (destination_table : Dict.t string) : Dict.t string * outcome :=
    match items with
    | [] => (destination_table, Returned)
    | (_, list_of_files) :: items' =>
        match list_of_files with
        | [] => (destination_table, Raised (IndexError "list index out of range"))
        | first :: others =>
            let destination_table := add_unique_file_to_table first destination_table in
            let destination_table :=
              fold_left (fun d f => Dict.append "duplicate-files" f d)
                        others destination_table in
            classify_groups items' destination_table
        end
    end.

  (** Lines 103-109: singleton groups are classified, the other groups are
      copied to [potentially_duplicate_files]. *)
Fixpoint split_groups (items : Dict.t pykey)
      (destination_table : Dict.t string)
      (potentially_duplicate_files : Dict.t pykey)
    : Dict.t string * Dict.t pykey :=
    match items with
    | [] => (destination_table, potentially_duplicate_files)
    | (key, files) :: items' =>
        match files with
        | [f] =>
            split_groups items' (add_unique_file_to_table f destination_table)
                         potentially_duplicate_files
        | _ =>
            split_groups items' destination_table
                         (Dict.extend key files potentially_duplicate_files)
        end
    end.

  (** Lines 118-119: every group of [potentially_duplicate_files] is
      rehashed into [source_table]; the first exception ends the loop. *)
Fixpoint rehash_groups (items : Dict.t pykey) (source_table : Dict.t pykey)
      (iteration : Z) : Dict.t pykey * list event * outcome :=
    match items with
    | [] => (source_table, [], Returned)
    | (_, list_of_files) :: items' =>
        match rehash_and_add_to_table list_of_files source_table iteration with
        | (source_table, evs, Returned) =>
            let '(d, evs', o) := rehash_groups items' source_table iteration in
            (d, evs ++ evs', o)
        | (source_table, evs, Raised e) => (source_table, evs, Raised e)
        end
    end.

  (** [find_duplicate_files(source_table, destination_table, iteration)].
      [fuel] bounds the depth of the recursion; [None] means that the bound
      was reached. The two tables are distinct objects, as in [main]. *)
Fixpoint find_duplicate_files (fuel : nat) (source_table : Dict.t pykey)
      (destination_table : Dict.t string) (iteration : Z) : option result :=
    match fuel with
    | O => None
    | S fuel' =>
        let entered := Enter iteration source_table in
        if iteration =? 2 then
          let '(destination_table, o) :=
            classify_groups source_table destination_table in
          Some (mkResult source_table destination_table [entered] o)
        else
          let '(destination_table, potentially_duplicate_files) :=
            split_groups source_table destination_table [] in
          if Dict.is_empty potentially_duplicate_files then
            Some (mkResult source_table destination_table [entered] Returned)
          else
            match rehash_groups potentially_duplicate_files [] iteration with
            | (source_table, evs, Raised e) =>
                Some (mkResult source_table destination_table
                               (entered :: evs) (Raised e))
            | (source_table, evs, Returned) =>
                match find_duplicate_files fuel' source_table destination_table
                                           (iteration + 1) with
                | None => None
                | Some r =>
                    Some (mkResult (source r) (destination r)
                                   (entered :: evs ++ events r) (ending r))
                end
            end
    end.

End Resolver.

(** ** Notions used to state the properties *)

(** The files that sit alone in their group, in table order. *)
Definition singletons (d : Dict.t pykey) : list file :=
  flat_map (fun kg => match snd kg with [f] => [f] | _ => [] end) d.

(** The groups that do not have exactly one member, in table order. *)
Definition ambiguous_groups (d : Dict.t pykey) : Dict.t pykey :=
  filter (fun kg => match snd kg with [_] => false | _ => true end) d.

(** The files of the groups that do not have exactly one member. *)
Definition ambiguous (d : Dict.t pykey) : list file :=
  Dict.files (ambiguous_groups d).

(** Grouping a list of files by a key, from a given table on. *)
Definition regroup (key : file -> string) (l : list file) (d : Dict.t pykey)
  : Dict.t pykey :=
  fold_left (fun d f => Dict.append (KStr (key f)) f d) l d.

(** Classifying a list of unique files, one after the other. *)
Definition classify_unique (l : list file) (d : Dict.t string) : Dict.t string :=
  fold_left (fun d f => add_unique_file_to_table f d) l d.

(** Filing a list of files as duplicates, one after the other. *)
Definition classify_duplicate (l : list file) (d : Dict.t string) : Dict.t string :=
  fold_left (fun d f => Dict.append "duplicate-files" f d) l d.



(** The iterations at which [find_duplicate_files] was entered. *)
Definition levels (evs : list event) : list Z :=
  flat_map (fun e => match e with Enter i _ => [i] | Hash _ _ => [] end) evs.

(** The text after the final dot of a name, if it has a dot. *)
Fixpoint text_after_final_dot (s : string) : option string :=
  match s with
  | EmptyString => None
  | String c s' =>
      match text_after_final_dot s' with
      | Some t => Some t
      | None => if Ascii.eqb c "."%char then Some s' else None
      end
  end.

(** The character occurs in the name. *)
Fixpoint occurs (c : ascii) (s : string) : bool :=
  match s with
  | EmptyString => false
  | String a s' => Ascii.eqb a c || occurs c s'
  end.

(** The label that the text after the final dot gives: ["<ext>-files"], or
    the sentinel label for a name without extension. *)
Definition label_of_text_after_final_dot (f : file) : string :=
  match text_after_final_dot f with
  | Some ext => (ext ++ "-files")%string
  | None => "no-extension-files"
  end.

Section Digests.
Variable sha256_hexdigest : list byte -> string.
Variable fs : file -> option (list byte).

  (** The digest of the first [byte_chunk] bytes of a readable file. *)
Definition partial_digest (f : file) : option string :=
    option_map (fun c => sha256_hexdigest (firstn (Z.to_nat byte_chunk) c)) (fs f).

  (** The digest of all the bytes of a readable file. *)
Definition full_digest (f : file) : option string :=
    option_map sha256_hexdigest (fs f).

  (** What [rehash_and_add_to_table] computes for [f], when it does. *)
Definition digest (iteration : Z) (f : file) : option string :=
    match fs f with
    | None => None
    | Some c =>
        match get_hash sha256_hexdigest c iteration with
        | inr h => Some h
        | inl _ => None
        end
    end.

  (** The key under which [f] is filed by a pass that does not fail. *)
Definition digest_key (iteration : Z) (f : file) : string :=
    match digest iteration f with Some h => h | None => "" end.

  (** The [potentially_duplicate_files] that a call builds from its
      source table. *)
Definition pending (source_table : Dict.t pykey) : Dict.t pykey :=
    snd (split_groups source_table [] []).

  (** The table of level 1: the ambiguous files of the input, grouped by
      the digest of their first [byte_chunk] bytes. *)
Definition level1 (source_table : Dict.t pykey) : Dict.t pykey :=
    regroup (digest_key 0) (Dict.files (pending source_table)) [].

  (** The table of level 2: the ambiguous files of level 1, grouped by the
      digest of their contents. *)
Definition level2 (source_table : Dict.t pykey) : Dict.t pykey :=
    regroup (digest_key 1) (Dict.files (pending (level1 source_table))) [].

  (** The input table is keyed by file size, as [main] builds it. *)
Definition size_keyed (d : Dict.t pykey) : Prop :=
    forall k g f c, In (k, g) d -> In f g -> fs f = Some c ->
                    k = KInt (Z.of_nat (List.length c)).
End Digests.

(** ** A small directory, used to run the resolver *)

Module Sample.

(** A stand-in for SHA-256 that has no collisions: the data itself. *)
Definition hexdigest (data : list byte) : string := string_of_list_byte data.

Definition X : list byte := list_byte_of_string "XXXXXXXXXX".
Definition Y : list byte := list_byte_of_string "YYYYYYYYYY".
Definition Z20 : list byte := list_byte_of_string "ZZZZZZZZZZZZZZZZZZZZ".

(** Four readable files; every other name cannot be opened. *)
Definition fs (f : file) : option (list byte) :=
  if String.eqb f "a.txt" then Some X
  else if String.eqb f "b.txt" then Some X
  else if String.eqb f "c.txt" then Some Y
  else if String.eqb f "d.log" then Some Z20
  else None.

(** The table that [main] builds for the four files. *)
Definition hashed_files : Dict.t pykey :=
  [(KInt 10, ["a.txt"; "b.txt"; "c.txt"]); (KInt 20, ["d.log"])].



(** A second directory: two files of 1025 bytes and two of 1026 bytes that
    all start with the same [byte_chunk] bytes. *)
Definition chunk : list byte := repeat "A"%byte (Z.to_nat byte_chunk).
Definition P : list byte := chunk ++ list_byte_of_string "1".
Definition Q : list byte := chunk ++ list_byte_of_string "22".

Definition fs_big (f : file) : option (list byte) :=
  if String.eqb f "p.bin" then Some P
  else if String.eqb f "p2.bin" then Some P
  else if String.eqb f "q.bin" then Some Q
  else if String.eqb f "q2.bin" then Some Q
  else None.

Definition hashed_files_big : Dict.t pykey :=
  [(KInt 1025, ["p.bin"; "p2.bin"]); (KInt 1026, ["q.bin"; "q2.bin"])].

(** The result of a run that is known to end. *)
Definition the (o : option result) : result :=
  match o with
  | Some r => r
  | None => mkResult [] [] [] Returned
  end.

(** The runs of [main] on these directories. *)
Definition run : result :=
  Eval vm_compute in the (find_duplicate_files hexdigest fs 3 hashed_files [] 0).


Definition run_big : result :=
  Eval vm_compute in
    the (find_duplicate_files hexdigest fs_big 3 hashed_files_big [] 0).

(** One pass over the files of 10 bytes. *)
Definition pass : Dict.t pykey * list event * outcome :=
  Eval vm_compute in
    rehash_and_add_to_table hexdigest fs ["a.txt"; "b.txt"; "c.txt"] [] 0.

End Sample.

(** ** The rest of the program: scanning, printing, [main] *)

(** Grouping a list of files by a key of any kind, from a given table on. *)
Definition group_by (key : file -> pykey) (l : list file) (d : Dict.t pykey)
  : Dict.t pykey :=
  fold_left (fun d f => Dict.append (key f) f d) l d.

(** [is_macOS(sysname)] *)
Definition is_macOS (sysname : string) : bool := String.eqb sysname "Darwin".

(** [sorted(l)] on a list of [str]: ascending, compared character by
    character (the strings are held as their UTF-8 bytes, whose order is
    the order of the code points). *)
Fixpoint insert_sorted (x : string) (l : list string) : list string :=
  match l with
  | [] => [x]
  | y :: l' => if String.leb x y then x :: l else y :: insert_sorted x l'
  end.

Definition sorted (l : list string) : list string :=
  fold_right insert_sorted [] l.

(** The lines that [print_table_as_tree] prints, by their kind: a line of
    plain text, the line of a directory (drawn as the last one or not), the
    line of a file (with or without the vertical bar of its directory, with
    the corner of a last file or the tee of another file), and the bar
    between two directories. *)
Inductive tree_line : Type :=
| Text (s : string)
| DirectoryLine (last_directory : bool) (directory_name : string)
| FileLine (bar : bool) (corner : bool) (f : file)
| Bar.

(** The text of a line, as the f-strings of lines 36-58 build it. *)
Definition render (l : tree_line) : string :=
  match l with
  | Text s => s
  | DirectoryLine true d => "    └── " ++ d
  | DirectoryLine false d => "    ├── " ++ d
  | FileLine true true f => "    │   └── " ++ f
  | FileLine false true f => "        └── " ++ f
  | FileLine false false f => "        ├── " ++ f
  | FileLine true false f => "    │   ├── " ++ f
  | Bar => "    │"
  end%string.

(** Lines 46-55: the line of one file of a directory. *)
Definition file_line (files : list file) (last_directory : bool) (f : file)
  : tree_line :=
  if (List.length files =? 1)%nat then FileLine true true f
  else if String.eqb f (last files "") && last_directory then FileLine false true f
  else if String.eqb f (last files "") then FileLine true true f
  else if last_directory then FileLine false false f
  else FileLine true false f.

(** Lines 41-58: the lines of one directory. *)
Definition directory_lines (directory_names : list string)
    (entry : string * list file) : list tree_line :=
  let '(directory_name, files) := entry in
  let last_directory := String.eqb (last directory_names "") directory_name in
  DirectoryLine last_directory directory_name
    :: map (file_line files last_directory) files
    ++ (if negb last_directory then [Bar] else []).

(** Lines 32-58 of [print_table_as_tree(source_table, path)], as kinds of
    lines. The table passed in is not changed: the function rebinds its
    own name to sorted copies. *)
Definition tree_lines (source_table : Dict.t string) (path : string)
  : list tree_line :=
  let source_table :=
    map (fun k => (k, Dict.get k source_table)) (sorted (Dict.keys source_table)) in
  let source_table := map (fun kv => (fst kv, sorted (snd kv))) source_table in
  let directory_names := Dict.keys source_table in
  Text path :: Text "└── organized_files"
    :: flat_map (directory_lines directory_names) source_table.

(** [print_table_as_tree(source_table, path)]: the lines written to the
    standard output. *)
Definition print_table_as_tree (source_table : Dict.t string) (path : string)
  : list string :=
  map render (tree_lines source_table path).

(** The directories and the files that a tree shows, in order. *)
Definition shown_directories (lines : list tree_line) : list string :=
  flat_map (fun l => match l with DirectoryLine _ d => [d] | _ => [] end) lines.

Definition shown_files (lines : list tree_line) : list file :=
  flat_map (fun l => match l with FileLine _ _ f => [f] | _ => [] end) lines.

(** How [main] ends: by [exit(message)], by an exception that nothing
    catches, by an [OSError] of [os.chdir] or [os.listdir], or normally. *)
Inductive status : Type :=
| SystemExit (message : string)
| Uncaught (e : exn)
| UncaughtOSError
| Finished.

(** What a run of [main] leaves: the lines printed, the two tables, the
    events of the resolver and the way it ended. *)
Record program_run : Type := mkRun {
  stdout : list string;
  hashed_files : Dict.t pykey;
  organized_files : Dict.t string;
  trace : list event;
  exit_status : status
}.

Section Program.

Variable sha256_hexdigest : list byte -> string.
Variable fs : file -> option (list byte).

(** [os.uname()[0]] *)
Variable sysname : string.
(** [os.path.abspath], [os.path.exists] and [os.path.isdir] *)
Variable os_path_abspath : string -> string.
Variable os_path_exists : string -> bool.
Variable os_path_isdir : string -> bool.
(** [os.chdir(path)] followed by [os.listdir()]; [None] when one of them
    raises [OSError]. *)
Variable os_listdir : option (list file).
(** [os.path.getsize]; [None] when it raises [OSError]. *)
Variable os_path_getsize : file -> option Z.

(** [path_exists(path)] *)
Definition path_exists (path : string) : bool := os_path_exists path.

(** [is_directory(path)] *)
Definition is_directory (path : string) : bool := os_path_isdir path.

(** Lines 181-187 of [main]: the visible entries that are not directories
    are grouped by their size. *)
Fixpoint group_by_size (files_in_path : list file) (hashed_files : Dict.t pykey)
  : Dict.t pykey * outcome :=
  match files_in_path with
  | [] => (hashed_files, Returned)
  | current_file :: rest =>
      if negb (is_hidden_file current_file) && negb (is_directory current_file)
      then
        match os_path_getsize current_file with
        | None =>
            (hashed_files,
             Raised (Exception "Unable to obtain the current file's size"))
        | Some current_file_size =>
            group_by_size rest
              (Dict.append (KInt current_file_size) current_file hashed_files)
        end
      else group_by_size rest hashed_files
  end.

(** [main()], for a command line that [argparse] has accepted: [args_path]
    and [verbose] are [args.path] and [args.verbose]. The resolver is given
    three levels of recursion, which is enough for it; [None] would mean
    that it is not. *)
Definition main (args_path : string) (verbose : bool) : option program_run :=
  if negb (is_macOS sysname) then
    Some (mkRun [] [] [] []
            (SystemExit "This program currently only works on macOS. Goodbye"))
  else
    let path := os_path_abspath args_path in
    if negb (path_exists path) then
      Some (mkRun [] [] [] [] (SystemExit (path ++ " does not exist")))
    else if negb (is_directory path) then
      Some (mkRun [] [] [] [] (SystemExit (path ++ " is not a directory")))
    else
      match os_listdir with
      | None => Some (mkRun [] [] [] [] UncaughtOSError)
      | Some files_in_path =>
          match group_by_size files_in_path [] with
          | (hashed_files, Raised e) =>
              Some (mkRun [] hashed_files [] [] (Uncaught e))
          | (hashed_files, Returned) =>
              match find_duplicate_files sha256_hexdigest fs 3 hashed_files [] 0 with
              | None => None
              | Some r =>
                  match ending r with
                  | Raised e =>
                      Some (mkRun [] (source r) (destination r) (events r)
                                  (Uncaught e))
                  | Returned =>
                      Some (mkRun
                              (if verbose
                               then print_table_as_tree (destination r) path
                               else [])
                              (source r) (destination r) (events r) Finished)
                  end
              end
          end
      end.

(** The entries that the loop of [main] keeps. *)
Definition eligible (f : file) : bool :=
  negb (is_hidden_file f) && negb (is_directory f).

(** The key under which the loop of [main] files an entry whose size it
    could obtain. *)
Definition size_key (f : file) : pykey :=
  match os_path_getsize f with
  | Some n => KInt n
  | None => KInt 0
  end.

End Program.

(** ** A small home directory, used to run the whole program *)

Module Tour.

(** A file of no byte and a file of five bytes. *)
Definition two_sizes : Dict.t pykey :=
  [(KInt 0, ["empty"]); (KInt 5, ["five.txt"])].

(** A file whose extension is ["duplicate"], alone in its size group. *)
Definition odd_name : Dict.t pykey := [(KInt 3, ["old.duplicate"])].

(** The directory of the four files of [Sample], with a hidden entry and a
    sub-directory. *)
Definition listing : list file :=
  [".hidden"; "a.txt"; "b.txt"; "sub"; "c.txt"; "d.log"].

Definition isdir (p : string) : bool :=
  String.eqb p "/d" || String.eqb p "sub".

Definition getsize (f : file) : option Z :=
  option_map (fun c => Z.of_nat (List.length c)) (Sample.fs f).

Definition abspath (p : string) : string := p.

Definition exists_ (p : string) : bool := true.

(** [main] on that directory, with [--verbose]. *)
Definition verbose_run : program_run :=
  Eval vm_compute in
    match main Sample.hexdigest Sample.fs "Darwin" abspath exists_ isdir
               (Some listing) getsize "/d" true with
    | Some run => run
    | None => mkRun [] [] [] [] Finished
    end.

End Tour.

(** * Facts about the dictionaries *)

Lemma pykey_eqb_eq (a b : pykey) : pykey_eqb a b = true <-> a = b.
Proof.
  destruct a as [n|s], b as [m|t]; simpl.
  - rewrite Z.eqb_eq. split; congruence.
  - split; discriminate.
  - split; discriminate.
  - rewrite String.eqb_eq. split; congruence.
Qed.

#[export] Instance PyKeyLaws_pykey : PyKeyLaws pykey :=
  @Build_PyKeyLaws pykey PyKey_pykey pykey_eqb_eq.

#[export] Instance PyKeyLaws_string : PyKeyLaws string :=
  @Build_PyKeyLaws string PyKey_string String.eqb_eq.

Lemma NoDup_app_disjoint (A : Type) (l1 l2 : list A) :
  NoDup (l1 ++ l2) -> forall x, In x l1 -> ~ In x l2.
Proof.
  induction l1 as [|a l1 IH]; simpl; intros Hnd x Hx Hx2; [contradiction|].
  inversion Hnd as [|? ? Ha Hnd']; subst.
  destruct Hx as [->|Hx].
  - apply Ha. apply in_app_iff. now right.
  - exact (IH Hnd' x Hx Hx2).
Qed.

Module DictFacts.
Section DictFacts.
Context {K : Type} {HK : PyKey K} {HL : PyKeyLaws K}.
Implicit Types (d : Dict.t K) (k : K) (g : list file).

Lemma key_eqb_refl k : key_eqb k k = true.
Proof. now apply key_eqb_eq. Qed.

Lemma key_eqb_neq k k' : key_eqb k k' = false <-> k <> k'.
Proof.
    rewrite <- (key_eqb_eq k k'). destruct (key_eqb k k'); split; congruence.
Qed.

Lemma files_cons k g d : Dict.files ((k, g) :: d) = g ++ Dict.files d.
Proof. reflexivity. Qed.

Lemma files_app d d' : Dict.files (d ++ d') = Dict.files d ++ Dict.files d'.
Proof.
    unfold Dict.files. now rewrite map_app, concat_app.
Qed.

Lemma get_extend k k' g d :
    Dict.get k' (Dict.extend k g d) =
    if key_eqb k' k then Dict.get k' d ++ g else Dict.get k' d.
Proof.
    induction d as [|[k0 g0] d IH]; simpl.
    - destruct (key_eqb k' k); reflexivity.
    - destruct (key_eqb k k0) eqn:E; simpl.
      + apply key_eqb_eq in E. subst k0.
        destruct (key_eqb k' k); reflexivity.
      + destruct (key_eqb k' k0) eqn:E'; [|exact IH].
        apply key_eqb_eq in E'. subst k0.
        destruct (key_eqb k' k) eqn:E''; [|reflexivity].
        apply key_eqb_eq in E''. subst k'. rewrite key_eqb_refl in E. discriminate.
Qed.

Lemma files_extend k g d :
    Permutation (Dict.files (Dict.extend k g d)) (Dict.files d ++ g).
Proof.
    induction d as [|[k0 g0] d IH]; simpl.
    - unfold Dict.files. simpl. now rewrite app_nil_r.
    - destruct (key_eqb k k0); rewrite !files_cons.
      + rewrite <- !app_assoc. apply Permutation_app_head, Permutation_app_comm.
      + rewrite <- app_assoc. now apply Permutation_app_head.
Qed.

Lemma keys_extend k g d :
    Dict.keys (Dict.extend k g d) =
    if existsb (key_eqb k) (Dict.keys d) then Dict.keys d else Dict.keys d ++ [k].
Proof.
    induction d as [|[k0 g0] d IH]; simpl; [reflexivity|].
    destruct (key_eqb k k0); simpl; [reflexivity|].
    unfold Dict.keys in *. rewrite IH.
    destruct (existsb (key_eqb k) (map fst d)); reflexivity.
Qed.

Lemma existsb_key k (l : list K) : existsb (key_eqb k) l = true <-> In k l.
Proof.
    rewrite existsb_exists. split.
    - intros (x & Hx & E). apply key_eqb_eq in E. now subst.
    - intros Hk. exists k. split; [assumption | apply key_eqb_refl].
Qed.


Lemma NoDup_keys_extend k g d :
    NoDup (Dict.keys d) -> NoDup (Dict.keys (Dict.extend k g d)).
Proof.
    intros Hd. rewrite keys_extend.
    destruct (existsb (key_eqb k) (Dict.keys d)) eqn:E; [assumption|].
    apply NoDup_app; [assumption | repeat constructor; intros [] | ].
    intros x Hx [<-|[]].
    apply existsb_key in Hx. congruence.
Qed.

Lemma get_In k g d : NoDup (Dict.keys d) -> In (k, g) d -> Dict.get k d = g.
Proof.
    induction d as [|[k0 g0] d IH]; simpl; intros Hd Hin; [contradiction|].
    inversion Hd as [|? ? Hk0 Hd']; subst.
    destruct Hin as [E|Hin].
    - inversion E; subst. now rewrite key_eqb_refl.
    - destruct (key_eqb k k0) eqn:E.
      + apply key_eqb_eq in E. subst k0. exfalso. apply Hk0.
        change k with (fst (k, g)). now apply in_map.
      + now apply IH.
Qed.

Lemma In_get k d : In k (Dict.keys d) -> In (k, Dict.get k d) d.
Proof.
    induction d as [|[k0 g0] d IH]; simpl; intros Hin; [contradiction|].
    destruct (key_eqb k k0) eqn:E.
    - apply key_eqb_eq in E. subst. now left.
    - right. apply IH. destruct Hin as [E'|Hin]; [|assumption].
      subst. rewrite key_eqb_refl in E. discriminate.
Qed.

Lemma get_files k d f : In f (Dict.get k d) -> In f (Dict.files d).
Proof.
    induction d as [|[k0 g0] d IH]; simpl; intros Hin; [contradiction|].
    rewrite files_cons, in_app_iff.
    destruct (key_eqb k k0); auto.
Qed.

Lemma In_files f d : In f (Dict.files d) <-> exists k g, In (k, g) d /\ In f g.
Proof.
    induction d as [|[k0 g0] d IH].
    - simpl. split; [contradiction | intros (? & ? & [] & _)].
    - rewrite files_cons, in_app_iff, IH. split.
      + intros [Hf|(k & g & Hkg & Hf)].
        * exists k0, g0. split; [now left | assumption].
        * exists k, g. split; [now right | assumption].
      + intros (k & g & [E|Hkg] & Hf).
        * inversion E; subst. now left.
        * right. now exists k, g.
Qed.

  (** A file that occurs once in a table with distinct keys is in one
      bucket only. *)
Lemma one_bucket d f k k' :
    NoDup (Dict.files d) ->
    In f (Dict.get k d) -> In f (Dict.get k' d) -> k = k'.
Proof.
    induction d as [|[k0 g0] d IH]; simpl; intros Hd Hk Hk'; [contradiction|].
    rewrite files_cons in Hd.
    pose proof (NoDup_app_remove_l _ _ Hd) as Hd'.
    assert (Hdisj : forall x, In x g0 -> ~ In x (Dict.files d)).
    { exact (NoDup_app_disjoint _ _ _ Hd). }
    destruct (key_eqb k k0) eqn:E, (key_eqb k' k0) eqn:E'.
    - apply key_eqb_eq in E, E'. congruence.
    - exfalso. eapply Hdisj; eauto using get_files.
    - exfalso. eapply Hdisj; eauto using get_files.
    - now apply IH.
Qed.

End DictFacts.
End DictFacts.

(** * Facts about the passes of the resolver *)

Import DictFacts.

Lemma singletons_cons k g d :
  singletons ((k, g) :: d) = match g with [f] => [f] | _ => [] end ++ singletons d.
Proof. reflexivity. Qed.

Lemma ambiguous_cons k g d :
  ambiguous ((k, g) :: d) = match g with [_] => [] | _ => g end ++ ambiguous d.
Proof.
  unfold ambiguous, ambiguous_groups. simpl.
  destruct g as [|f [|f' g]]; reflexivity.
Qed.

(** Every file of a table is either alone in its group or ambiguous. *)
Lemma files_split d :
  Permutation (Dict.files d) (singletons d ++ ambiguous d).
Proof.
  induction d as [|[k g] d IH]; [constructor|].
  rewrite files_cons, singletons_cons, ambiguous_cons.
  destruct g as [|f [|f' g]].
  - exact IH.
  - simpl. now constructor.
  - change (Permutation ((f :: f' :: g) ++ Dict.files d)
                        (singletons d ++ (f :: f' :: g) ++ ambiguous d)).
    transitivity ((f :: f' :: g) ++ singletons d ++ ambiguous d).
    + now apply Permutation_app_head.
    + rewrite !app_assoc. apply Permutation_app_tail, Permutation_app_comm.
Qed.

Lemma ambiguous_incl d f : In f (ambiguous d) -> In f (Dict.files d).
Proof.
  intros Hf. apply (Permutation_in _ (Permutation_sym (files_split d))).
  apply in_app_iff. now right.
Qed.

Lemma In_ambiguous d f :
  In f (ambiguous d) <->
  exists k g, In (k, g) d /\ In f g /\ List.length g <> 1%nat.
Proof.
  unfold ambiguous. rewrite In_files. split.
  - intros (k & g & Hkg & Hf). apply filter_In in Hkg. destruct Hkg as [Hkg Hg].
    exists k, g. repeat split; try assumption.
    destruct g as [|? [|? ?]]; simpl in *; congruence.
  - intros (k & g & Hkg & Hf & Hg). exists k, g. split; [|assumption].
    apply filter_In. split; [assumption|].
    destruct g as [|? [|? ?]]; simpl in *; congruence.
Qed.

Lemma In_singletons d f :
  In f (singletons d) <-> exists k, In (k, [f]) d.
Proof.
  unfold singletons. rewrite in_flat_map. split.
  - intros ([k g] & Hkg & Hf). simpl in Hf.
    destruct g as [|x [|? ?]]; simpl in Hf; try contradiction.
    destruct Hf as [<-|[]]. now exists k.
  - intros (k & Hk). exists (k, [f]). split; [assumption | now left].
Qed.

(** ** Classification *)

Lemma files_classify_unique l d :
  Permutation (Dict.files (classify_unique l d)) (Dict.files d ++ l).
Proof.
  revert d. induction l as [|f l IH]; intros d; simpl.
  - now rewrite app_nil_r.
  - rewrite IH. unfold add_unique_file_to_table, Dict.append.
    rewrite files_extend, <- app_assoc. reflexivity.
Qed.

Lemma files_classify_duplicate l d :
  Permutation (Dict.files (classify_duplicate l d)) (Dict.files d ++ l).
Proof.
  revert d. induction l as [|f l IH]; intros d; simpl.
  - now rewrite app_nil_r.
  - rewrite IH. unfold Dict.append.
    rewrite files_extend, <- app_assoc. reflexivity.
Qed.

Lemma get_append_mono (label label' : string) f f' d :
  In f (Dict.get label d) -> In f (Dict.get label (Dict.append label' f' d)).
Proof.
  intros Hf. unfold Dict.append. rewrite get_extend.
  destruct (key_eqb label label'); [apply in_app_iff; now left | assumption].
Qed.

Lemma get_append_same (label : string) f d :
  In f (Dict.get label (Dict.append label f d)).
Proof.
  unfold Dict.append. rewrite get_extend, key_eqb_refl.
  apply in_app_iff. right. now left.
Qed.

Lemma classify_unique_mono label l f d :
  In f (Dict.get label d) -> In f (Dict.get label (classify_unique l d)).
Proof.
  revert d. induction l as [|x l IH]; intros d Hf; simpl; [assumption|].
  apply IH. now apply get_append_mono.
Qed.

Lemma classify_duplicate_mono label l f d :
  In f (Dict.get label d) -> In f (Dict.get label (classify_duplicate l d)).
Proof.
  revert d. induction l as [|x l IH]; intros d Hf; simpl; [assumption|].
  apply IH. now apply get_append_mono.
Qed.

Lemma classify_unique_In l f d :
  In f l -> In f (Dict.get (extension_label f) (classify_unique l d)).
Proof.
  revert d. induction l as [|x l IH]; intros d Hf; simpl; [contradiction|].
  destruct Hf as [->|Hf]; [|now apply IH].
  apply classify_unique_mono, get_append_same.
Qed.

Lemma classify_duplicate_In l f d :
  In f l -> In f (Dict.get "duplicate-files" (classify_duplicate l d)).
Proof.
  revert d. induction l as [|x l IH]; intros d Hf; simpl; [contradiction|].
  destruct Hf as [->|Hf]; [|now apply IH].
  apply classify_duplicate_mono, get_append_same.
Qed.

Lemma NoDup_keys_classify_unique l (d : Dict.t string) :
  NoDup (Dict.keys d) -> NoDup (Dict.keys (classify_unique l d)).
Proof.
  revert d. induction l as [|x l IH]; intros d Hd; simpl; [assumption|].
  apply IH. now apply NoDup_keys_extend.
Qed.

Lemma NoDup_keys_classify_duplicate l (d : Dict.t string) :
  NoDup (Dict.keys d) -> NoDup (Dict.keys (classify_duplicate l d)).
Proof.
  revert d. induction l as [|x l IH]; intros d Hd; simpl; [assumption|].
  apply IH. now apply NoDup_keys_extend.
Qed.

(** ** The loop over the groups of one level (lines 103-109) *)

Lemma split_groups_fst items dst pd :
  fst (split_groups items dst pd) = classify_unique (singletons items) dst.
Proof.
  revert dst pd. induction items as [|[k g] items IH]; intros dst pd; [reflexivity|].
  rewrite singletons_cons. simpl split_groups.
  destruct g as [|f [|f' g]]; simpl; apply IH.
Qed.

Lemma split_groups_snd_files items dst pd :
  Permutation (Dict.files (snd (split_groups items dst pd)))
              (Dict.files pd ++ ambiguous items).
Proof.
  revert dst pd. induction items as [|[k g] items IH]; intros dst pd.
  - simpl. unfold ambiguous. simpl. now rewrite app_nil_r.
  - rewrite ambiguous_cons. simpl split_groups.
    destruct g as [|f [|f' g]].
    + rewrite IH, files_extend, app_nil_r. reflexivity.
    + apply IH.
    + rewrite IH, files_extend, <- app_assoc. reflexivity.
Qed.


Lemma split_groups_empty items dst :
  snd (split_groups items dst []) = [] -> ambiguous items = [].
Proof.
  intros Hpd. pose proof (split_groups_snd_files items dst []) as Hp.
  rewrite Hpd in Hp. now apply Permutation_nil in Hp.
Qed.

(** ** The loop of the last level (lines 96-99) *)

Lemma classify_groups_files items dst dst' :
  classify_groups items dst = (dst', Returned) ->
  Permutation (Dict.files dst') (Dict.files dst ++ Dict.files items).
Proof.
  revert dst. induction items as [|[k g] items IH]; intros dst Hc; simpl in Hc.
  - inversion Hc; subst. unfold Dict.files at 3. simpl. now rewrite app_nil_r.
  - destruct g as [|first others]; [discriminate|].
    apply IH in Hc. rewrite Hc. rewrite files_cons.
    fold (classify_duplicate others (add_unique_file_to_table first dst)).
    rewrite files_classify_duplicate.
    unfold add_unique_file_to_table, Dict.append. rewrite files_extend.
    rewrite <- !app_assoc. reflexivity.
Qed.

Lemma classify_groups_returns items dst :
  (forall k g, In (k, g) items -> g <> []) ->
  snd (classify_groups items dst) = Returned.
Proof.
  revert dst. induction items as [|[k g] items IH]; intros dst Hne; [reflexivity|].
  simpl. destruct g as [|first others].
  - exfalso. apply (Hne k []); [now left | reflexivity].
  - apply IH. intros k' g' Hin. apply (Hne k' g'). now right.
Qed.

Lemma classify_groups_mono items dst label f :
  In f (Dict.get label dst) ->
  In f (Dict.get label (fst (classify_groups items dst))).
Proof.
  revert dst. induction items as [|[k g] items IH]; intros dst Hf; [assumption|].
  simpl. destruct g as [|first others]; [assumption|].
  apply IH.
  fold (classify_duplicate others (add_unique_file_to_table first dst)).
  apply classify_duplicate_mono. now apply get_append_mono.
Qed.

(** In every group of the last level the first member is classified by its
    extension and the others are filed as duplicates. *)
Lemma classify_groups_In items dst k first others :
  snd (classify_groups items dst) = Returned ->
  In (k, first :: others) items ->
  In first (Dict.get (extension_label first) (fst (classify_groups items dst)))
  /\ forall y, In y others ->
       In y (Dict.get "duplicate-files" (fst (classify_groups items dst))).
Proof.
  revert dst. induction items as [|[k0 g0] items IH]; intros dst Hr Hin;
    [contradiction|].
  simpl in Hr |- *. destruct g0 as [|first0 others0]; [discriminate|].
  fold (classify_duplicate others0 (add_unique_file_to_table first0 dst)) in *.
  destruct Hin as [E|Hin]; [|now apply IH].
  inversion E; subst. split.
  - apply classify_groups_mono, classify_duplicate_mono, get_append_same.
  - intros y Hy. now apply classify_groups_mono, classify_duplicate_In.
Qed.

Lemma NoDup_keys_classify_groups items (dst : Dict.t string) :
  NoDup (Dict.keys dst) -> NoDup (Dict.keys (fst (classify_groups items dst))).
Proof.
  revert dst. induction items as [|[k g] items IH]; intros dst Hd; [assumption|].
  simpl. destruct g as [|first others]; [assumption|].
  apply IH.
  fold (classify_duplicate others (add_unique_file_to_table first dst)).
  apply NoDup_keys_classify_duplicate. now apply NoDup_keys_extend.
Qed.

(** ** Regrouping by a key *)

Lemma regroup_cons key f l d :
  regroup key (f :: l) d = regroup key l (Dict.append (KStr (key f)) f d).
Proof. reflexivity. Qed.


Lemma files_regroup key l d :
  Permutation (Dict.files (regroup key l d)) (Dict.files d ++ l).
Proof.
  revert d. induction l as [|f l IH]; intros d.
  - simpl. now rewrite app_nil_r.
  - rewrite regroup_cons, IH. unfold Dict.append.
    rewrite files_extend, <- app_assoc. reflexivity.
Qed.

(** The group of a key is made of the files with that key, in the order of
    the list. *)
Lemma get_regroup key l d k :
  Dict.get k (regroup key l d) =
  Dict.get k d ++ filter (fun f => key_eqb k (KStr (key f))) l.
Proof.
  revert d. induction l as [|f l IH]; intros d.
  - simpl. now rewrite app_nil_r.
  - rewrite regroup_cons, IH. unfold Dict.append. rewrite get_extend. simpl.
    destruct (pykey_eqb k (KStr (key f))); [|reflexivity].
    now rewrite <- app_assoc.
Qed.

Lemma NoDup_keys_regroup key l d :
  NoDup (Dict.keys d) -> NoDup (Dict.keys (regroup key l d)).
Proof.
  revert d. induction l as [|f l IH]; intros d Hd; [assumption|].
  rewrite regroup_cons. apply IH. now apply NoDup_keys_extend.
Qed.

Lemma keys_regroup key l d k :
  In k (Dict.keys (regroup key l d)) ->
  In k (Dict.keys d) \/ exists f, In f l /\ k = KStr (key f).
Proof.
  revert d. induction l as [|f l IH]; intros d Hk; [now left|].
  rewrite regroup_cons in Hk. apply IH in Hk.
  destruct Hk as [Hk|(f' & Hf' & E)].
  - unfold Dict.append in Hk. rewrite keys_extend in Hk.
    destruct (existsb (key_eqb (KStr (key f))) (Dict.keys d)); [now left|].
    apply in_app_iff in Hk. destruct Hk as [Hk|[<-|[]]]; [now left|].
    right. exists f. split; [now left | reflexivity].
  - right. exists f'. split; [now right | assumption].
Qed.

(** The groups of a table built by regrouping a list: each is keyed by a
    digest, is not empty, and holds the files of the list with that key. *)
Lemma regroup_In key l k g :
  In (k, g) (regroup key l []) ->
  g = filter (fun f => key_eqb k (KStr (key f))) l
  /\ g <> []
  /\ exists f, In f l /\ k = KStr (key f).
Proof.
  intros Hin.
  assert (Hnd : NoDup (Dict.keys (regroup key l [])))
    by (apply NoDup_keys_regroup; constructor).
  pose proof (get_In _ _ _ Hnd Hin) as Hg. rewrite get_regroup in Hg.
  cbn [Dict.get app] in Hg.
  assert (Hk : In k (Dict.keys (regroup key l []))).
  { change k with (fst (k, g)). now apply in_map. }
  apply keys_regroup in Hk. destruct Hk as [[]|(f & Hf & E)].
  split; [now symmetry|]. split; [|now exists f].
  intros ->. assert (Hin' : In f (filter (fun f => key_eqb k (KStr (key f))) l)).
  { apply filter_In. split; [assumption|]. subst k. apply key_eqb_refl. }
  now rewrite Hg in Hin'.
Qed.

Lemma regroup_key key l k g f :
  In (k, g) (regroup key l []) -> In f g -> In f l /\ k = KStr (key f).
Proof.
  intros Hin Hf. apply regroup_In in Hin. destruct Hin as (-> & _ & _).
  apply filter_In in Hf. destruct Hf as [Hf E]. split; [assumption|].
  now apply key_eqb_eq in E.
Qed.

Lemma keys_extend_mono (k k' : pykey) g (d : Dict.t pykey) :
  In k (Dict.keys d) -> In k (Dict.keys (Dict.extend k' g d)).
Proof.
  intros Hk. rewrite keys_extend.
  destruct (existsb (key_eqb k') (Dict.keys d)); [assumption|].
  apply in_app_iff. now left.
Qed.

Lemma keys_extend_In (k : pykey) g (d : Dict.t pykey) :
  In k (Dict.keys (Dict.extend k g d)).
Proof.
  rewrite keys_extend.
  destruct (existsb (key_eqb k) (Dict.keys d)) eqn:E.
  - now apply existsb_key in E.
  - apply in_app_iff. right. now left.
Qed.

Lemma keys_regroup_mono key l d k :
  In k (Dict.keys d) -> In k (Dict.keys (regroup key l d)).
Proof.
  revert d. induction l as [|f l IH]; intros d Hk; [assumption|].
  rewrite regroup_cons. apply IH. now apply keys_extend_mono.
Qed.

Lemma keys_regroup_In key l d f :
  In f l -> In (KStr (key f)) (Dict.keys (regroup key l d)).
Proof.
  revert d. induction l as [|x l IH]; intros d Hf; [contradiction|].
  rewrite regroup_cons. destruct Hf as [->|Hf]; [|now apply IH].
  apply keys_regroup_mono, keys_extend_In.
Qed.

(** Two files of the list with the same key are in the same group. *)
Lemma regroup_same_group key l f1 f2 :
  In f1 l -> In f2 l -> key f1 = key f2 ->
  exists g, In (KStr (key f1), g) (regroup key l []) /\ In f1 g /\ In f2 g.
Proof.
  intros H1 H2 E.
  exists (Dict.get (KStr (key f1)) (regroup key l [])). split.
  - apply In_get. now apply keys_regroup_In.
  - rewrite get_regroup. cbn [Dict.get app].
    split; apply filter_In; (split; [assumption|]).
    + apply key_eqb_refl.
    + rewrite E. apply key_eqb_refl.
Qed.

Lemma two_members (g : list file) f1 f2 :
  In f1 g -> In f2 g -> f1 <> f2 -> List.length g <> 1%nat.
Proof.
  destruct g as [|x [|y g]]; simpl; intros H1 H2 Hne; try lia.
  destruct H1 as [<-|[]], H2 as [<-|[]]. congruence.
Qed.

(** ** Rehashing (lines 81-89 and 118-119) *)

Section Rehash.
Variable sha256_hexdigest : list byte -> string.
Variable fs : file -> option (list byte).

Local Abbreviation rehash_and_add_to_table := (rehash_and_add_to_table sha256_hexdigest fs).
Local Abbreviation rehash_groups := (rehash_groups sha256_hexdigest fs).
Local Abbreviation digest := (digest sha256_hexdigest fs).
Local Abbreviation digest_key := (digest_key sha256_hexdigest fs).

Lemma digest_0 f : digest 0 f = partial_digest sha256_hexdigest fs f.
Proof. unfold digest, partial_digest. now destruct (fs f). Qed.

Lemma digest_1 f : digest 1 f = full_digest sha256_hexdigest fs f.
Proof. unfold digest, full_digest. now destruct (fs f). Qed.

Lemma digest_readable i f : digest i f <> None -> fs f <> None.
Proof. unfold digest. destruct (fs f); congruence. Qed.

Lemma readable_digest i f :
    i = 0 \/ i = 1 -> fs f <> None -> digest i f <> None.
Proof.
    unfold digest. intros Hi Hf. destruct (fs f); [|congruence].
    destruct Hi as [-> | ->]; discriminate.
Qed.

  (** A pass only ever hashes files of its list, at its own iteration. *)
Lemma rehash_events l d i d' evs o :
    rehash_and_add_to_table l d i = (d', evs, o) ->
    forall e, In e evs -> exists f, In f l /\ e = Hash f i.
Proof.
    revert d d' evs o. induction l as [|f l IH]; intros d d' evs o Hr e He;
      simpl in Hr.
    - inversion Hr; subst. contradiction.
    - destruct (fs f) as [c|].
      + destruct (get_hash sha256_hexdigest c i) as [ex|h].
        * inversion Hr; subst. destruct He as [<-|[]].
          exists f. split; [now left | reflexivity].
        * destruct (rehash_and_add_to_table l _ i) as [[d1 evs1] o1] eqn:Hl.
          inversion Hr; subst. destruct He as [<-|He].
          -- exists f. split; [now left | reflexivity].
          -- destruct (IH _ _ _ _ Hl e He) as (f' & Hf' & E).
             exists f'. split; [now right | assumption].
      + inversion Hr; subst. destruct He as [<-|[]].
        exists f. split; [now left | reflexivity].
Qed.

  (** A pass over files that can all be hashed returns the regrouped table. *)
Lemma rehash_ok l d i :
    (forall f, In f l -> digest i f <> None) ->
    rehash_and_add_to_table l d i =
    (regroup (digest_key i) l d, map (fun f => Hash f i) l, Returned).
Proof.
    revert d. induction l as [|f l IH]; intros d Hl; [reflexivity|].
    pose proof (Hl f (or_introl eq_refl)) as Hf.
    rewrite regroup_cons. simpl rehash_and_add_to_table.
    unfold digest_key, digest in Hf |- *.
    destruct (fs f) as [c|]; [|congruence].
    destruct (get_hash sha256_hexdigest c i) as [ex|h]; [congruence|].
    rewrite IH by (intros f' Hf'; apply Hl; now right). reflexivity.
Qed.

  (** A pass that returns has hashed every file of its list. *)
Lemma rehash_returned l d i d' evs :
    rehash_and_add_to_table l d i = (d', evs, Returned) ->
    forall f, In f l -> digest i f <> None.
Proof.
    revert d d' evs. induction l as [|f l IH]; intros d d' evs Hr f' Hf';
      [contradiction|].
    simpl in Hr. unfold digest.
    destruct (fs f) as [c|] eqn:Hc; [|discriminate].
    destruct (get_hash sha256_hexdigest c i) as [ex|h] eqn:Hh; [discriminate|].
    destruct (rehash_and_add_to_table l _ i) as [[d1 evs1] o1] eqn:Hl.
    inversion Hr; subst. destruct Hf' as [<-|Hf'].
    - rewrite Hc, Hh. discriminate.
    - exact (IH _ _ _ Hl f' Hf').
Qed.

  (** At iterations 0 and 1 the only exception of a pass is the one raised
      for an unreadable file. *)
Lemma rehash_raised l d i d' evs e :
    i = 0 \/ i = 1 ->
    rehash_and_add_to_table l d i = (d', evs, Raised e) ->
    e = Exception "Unable to read current file"
    /\ exists f, In f l /\ fs f = None.
Proof.
    intros Hi. revert d d' evs. induction l as [|f l IH]; intros d d' evs Hr;
      simpl in Hr; [discriminate|].
    destruct (fs f) as [c|] eqn:Hc.
    - destruct (get_hash sha256_hexdigest c i) as [ex|h] eqn:Hh.
      + exfalso. destruct Hi as [-> | ->]; discriminate.
      + destruct (rehash_and_add_to_table l _ i) as [[d1 evs1] o1] eqn:Hl.
        inversion Hr; subst. destruct (IH _ _ _ Hl) as (E & f' & Hf' & Hn).
        split; [assumption|]. exists f'. split; [now right | assumption].
    - inversion Hr; subst. split; [reflexivity|].
      exists f. split; [now left | assumption].
Qed.

Lemma rehash_app l l' d i :
    rehash_and_add_to_table (l ++ l') d i =
    match rehash_and_add_to_table l d i with
    | (d1, evs, Returned) =>
        let '(d2, evs', o) := rehash_and_add_to_table l' d1 i in
        (d2, evs ++ evs', o)
    | (d1, evs, Raised e) => (d1, evs, Raised e)
    end.
Proof.
    revert d. induction l as [|f l IH]; intros d; simpl.
    - now destruct (rehash_and_add_to_table l' d i) as [[d2 evs'] o].
    - destruct (fs f) as [c|]; [|reflexivity].
      destruct (get_hash sha256_hexdigest c i) as [ex|h]; [reflexivity|].
      rewrite IH.
      destruct (rehash_and_add_to_table l _ i) as [[d1 evs] [|e]]; [|reflexivity].
      now destruct (rehash_and_add_to_table l' d1 i) as [[d2 evs'] o].
Qed.

  (** Rehashing the groups one after the other is rehashing all their
      files in one pass: the groups are pooled. *)
Lemma rehash_groups_pooled items d i :
    rehash_groups items d i = rehash_and_add_to_table (Dict.files items) d i.
Proof.
    revert d. induction items as [|[k g] items IH]; intros d; [reflexivity|].
    rewrite files_cons, rehash_app. simpl.
    destruct (rehash_and_add_to_table g d i) as [[d1 evs] [|e]]; [|reflexivity].
    now rewrite IH.
Qed.

End Rehash.

(** ** One call of [find_duplicate_files] *)

Lemma split_groups_snd_dst items dst dst' pd :
  snd (split_groups items dst pd) = snd (split_groups items dst' pd).
Proof.
  revert dst dst' pd. induction items as [|[k g] items IH]; intros dst dst' pd;
    [reflexivity|].
  simpl. destruct g as [|f [|f' g]]; apply IH.
Qed.

Lemma In_pending items f :
  In f (Dict.files (pending items)) <-> In f (ambiguous items).
Proof.
  unfold pending.
  pose proof (split_groups_snd_files items [] []) as Hp.
  split; intros Hf.
  - exact (Permutation_in _ Hp Hf).
  - exact (Permutation_in _ (Permutation_sym Hp) Hf).
Qed.


Lemma is_empty_true (d : Dict.t pykey) : Dict.is_empty d = true <-> d = [].
Proof. destruct d; simpl; split; congruence. Qed.

Lemma is_empty_false (d : Dict.t pykey) : Dict.is_empty d = false <-> d <> [].
Proof. destruct d; simpl; split; congruence. Qed.

Section Run.
Variable sha256_hexdigest : list byte -> string.
Variable fs : file -> option (list byte).

Local Abbreviation rehash_and_add_to_table := (rehash_and_add_to_table sha256_hexdigest fs).
Local Abbreviation find_duplicate_files := (find_duplicate_files sha256_hexdigest fs).
Local Abbreviation digest := (digest sha256_hexdigest fs).
Local Abbreviation digest_key := (digest_key sha256_hexdigest fs).
Local Abbreviation level1 := (level1 sha256_hexdigest fs).
Local Abbreviation level2 := (level2 sha256_hexdigest fs).

(** The body of the function, with its loops replaced by what they compute. *)
Lemma find_duplicate_files_S fuel src dst i :
  find_duplicate_files (S fuel) src dst i =
  if i =? 2 then
    Some (mkResult src (fst (classify_groups src dst)) [Enter i src]
                   (snd (classify_groups src dst)))
  else
    let dst1 := classify_unique (singletons src) dst in
    if Dict.is_empty (pending src) then
      Some (mkResult src dst1 [Enter i src] Returned)
    else
      match rehash_and_add_to_table (Dict.files (pending src)) [] i with
      | (t, evs, Raised e) => Some (mkResult t dst1 (Enter i src :: evs) (Raised e))
      | (t, evs, Returned) =>
          match find_duplicate_files fuel t dst1 (i + 1) with
          | None => None
          | Some r =>
              Some (mkResult (source r) (destination r)
                             (Enter i src :: evs ++ events r) (ending r))
          end
      end.
Proof.
  simpl. destruct (i =? 2).
  - now destruct (classify_groups src dst).
  - pose proof (split_groups_fst src dst []) as H1.
    pose proof (split_groups_snd_dst src dst [] []) as H2.
    destruct (split_groups src dst []) as [dst1 pd]. simpl in H1, H2.
    fold (pending src) in H2. subst dst1 pd.
    rewrite rehash_groups_pooled. reflexivity.
Qed.

(** The last level neither hashes nor recurses. *)
Lemma find_duplicate_files_2 fuel src dst :
  find_duplicate_files (S fuel) src dst 2 =
  Some (mkResult src (fst (classify_groups src dst)) [Enter 2 src]
                 (snd (classify_groups src dst))).
Proof. now rewrite find_duplicate_files_S. Qed.


Lemma level2_nonempty src k g : In (k, g) (level2 src) -> g <> [].
Proof. intros Hin. now apply regroup_In in Hin. Qed.

Lemma level1_files src f : In f (Dict.files (level1 src)) <-> In f (ambiguous src).
Proof.
  unfold level1. rewrite <- In_pending.
  pose proof (files_regroup (digest_key 0) (Dict.files (pending src)) []) as Hp.
  split; intros Hf.
  - exact (Permutation_in _ Hp Hf).
  - exact (Permutation_in _ (Permutation_sym Hp) Hf).
Qed.

Lemma level2_files src f :
  In f (Dict.files (level2 src)) <-> In f (ambiguous (level1 src)).
Proof.
  unfold level2. rewrite <- In_pending.
  pose proof (files_regroup (digest_key 1) (Dict.files (pending (level1 src))) []) as Hp.
  split; intros Hf.
  - exact (Permutation_in _ Hp Hf).
  - exact (Permutation_in _ (Permutation_sym Hp) Hf).
Qed.

Lemma pending_level1_readable src f :
  (forall f, In f (Dict.files (pending src)) -> fs f <> None) ->
  In f (Dict.files (pending (level1 src))) -> fs f <> None.
Proof.
  intros Hall Hf. apply Hall.
  apply In_pending, level1_files, ambiguous_incl, In_pending. exact Hf.
Qed.

(** The runs of [find_duplicate_files] from iteration 0: what they leave
    in the tables, what they do and how they end. *)
Lemma run_cases fuel src dst r :
  find_duplicate_files fuel src dst 0 = Some r ->
  let d0 := classify_unique (singletons src) dst in
  let d1 := classify_unique (singletons (level1 src)) d0 in
  let h0 := map (fun f => Hash f 0) (Dict.files (pending src)) in
  let h1 := map (fun f => Hash f 1) (Dict.files (pending (level1 src))) in
  (pending src = [] /\ r = mkResult src d0 [Enter 0 src] Returned)
  \/ (pending src <> []
      /\ (exists f, In f (Dict.files (pending src)) /\ fs f = None)
      /\ exists t evs,
           r = mkResult t d0 (Enter 0 src :: evs)
                        (Raised (Exception "Unable to read current file"))
           /\ forall e, In e evs ->
                exists f, In f (Dict.files (pending src)) /\ e = Hash f 0)
  \/ (pending src <> []
      /\ (forall f, In f (Dict.files (pending src)) -> fs f <> None)
      /\ pending (level1 src) = []
      /\ r = mkResult (level1 src) d1
                      (Enter 0 src :: h0 ++ [Enter 1 (level1 src)]) Returned)
  \/ (pending src <> []
      /\ (forall f, In f (Dict.files (pending src)) -> fs f <> None)
      /\ pending (level1 src) <> []
      /\ r = mkResult (level2 src) (fst (classify_groups (level2 src) d1))
                      (Enter 0 src :: h0 ++ Enter 1 (level1 src)
                         :: h1 ++ [Enter 2 (level2 src)]) Returned).
Proof.
  intros Hrun d0 d1 h0 h1.
  destruct fuel as [|fuel]; [discriminate|].
  rewrite find_duplicate_files_S in Hrun. change (0 =? 2) with false in Hrun.
  cbv zeta in Hrun. fold d0 in Hrun.
  destruct (Dict.is_empty (pending src)) eqn:Hpd.
  { left. apply is_empty_true in Hpd. inversion Hrun. now split. }
  apply is_empty_false in Hpd. right.
  destruct (rehash_and_add_to_table (Dict.files (pending src)) [] 0)
    as [[t evs] [|e]] eqn:Hre.
  2:{ left. pose proof Hre as Hre'.
      eapply rehash_raised in Hre'; [|now left]. destruct Hre' as [-> Hf].
      split; [assumption|]. split; [assumption|].
      exists t, evs. split; [now inversion Hrun|].
      intros e0 He0. eapply rehash_events; eassumption. }
  right.
  assert (Hall : forall f, In f (Dict.files (pending src)) -> digest 0 f <> None)
    by (intros f Hf; eapply rehash_returned; eassumption).
  rewrite rehash_ok in Hre by assumption. inversion Hre; subst t evs. clear Hre.
  fold (level1 src) in Hrun. fold h0 in Hrun.
  assert (Hread : forall f, In f (Dict.files (pending src)) -> fs f <> None).
  { intros f Hf. eapply digest_readable, Hall, Hf. }
  change (0 + 1) with 1 in Hrun.
  destruct fuel as [|fuel]; [discriminate|].
  rewrite find_duplicate_files_S in Hrun. change (1 =? 2) with false in Hrun.
  cbv zeta in Hrun. fold d1 in Hrun.
  destruct (Dict.is_empty (pending (level1 src))) eqn:Hpd1.
  { left. apply is_empty_true in Hpd1. inversion Hrun.
    repeat split; assumption. }
  apply is_empty_false in Hpd1. right.
  assert (Hall1 : forall f, In f (Dict.files (pending (level1 src))) ->
                            digest 1 f <> None).
  { intros f Hf. apply readable_digest; [now right|].
    now apply (pending_level1_readable src). }
  rewrite rehash_ok in Hrun by assumption.
  fold (level2 src) in Hrun. fold h1 in Hrun.
  change (1 + 1) with 2 in Hrun.
  destruct fuel as [|fuel]; [discriminate|].
  rewrite find_duplicate_files_2 in Hrun.
  rewrite classify_groups_returns in Hrun by (apply level2_nonempty).
  simpl in Hrun. inversion Hrun.
  repeat split; assumption.
Qed.

End Run.

(** * File names and their extension *)

Lemma rfind_absent c s : occurs c s = false -> rfind c s = -1.
Proof.
  induction s as [|a s IH]; simpl; intros Ho; [reflexivity|].
  apply orb_false_iff in Ho. destruct Ho as [Ha Hs].
  rewrite (IH Hs), Ha. reflexivity.
Qed.

Lemma rfind_range c s : -1 <= rfind c s < Z.of_nat (String.length s).
Proof.
  induction s as [|a s IH]; simpl String.length; simpl rfind; [lia|].
  destruct (0 <=? rfind c s) eqn:E.
  - apply Z.leb_le in E. lia.
  - destruct (Ascii.eqb a c); lia.
Qed.

(** When the character occurs, [rfind] is the length of what is before its
    last occurrence. *)
Lemma rfind_present c s :
  occurs c s = true ->
  exists pre post,
    s = (pre ++ String c post)%string /\ occurs c post = false
    /\ rfind c s = Z.of_nat (String.length pre).
Proof.
  induction s as [|a s IH]; simpl; intros Ho; [discriminate|].
  destruct (occurs c s) eqn:Hs.
  - destruct (IH eq_refl) as (pre & post & -> & Hpost & Hr).
    exists (String a pre), post. repeat split; try assumption.
    rewrite Hr. simpl String.length.
    destruct (0 <=? Z.of_nat (String.length pre)) eqn:E; [lia|].
    apply Z.leb_gt in E. lia.
  - rewrite orb_false_r in Ho. apply Ascii.eqb_eq in Ho. subst a.
    exists EmptyString, s. repeat split; try assumption.
    rewrite (rfind_absent _ _ Hs). simpl. now rewrite Ascii.eqb_refl.
Qed.

Lemma text_after_final_dot_absent s :
  occurs "."%char s = false -> text_after_final_dot s = None.
Proof.
  induction s as [|a s IH]; simpl; intros Ho; [reflexivity|].
  apply orb_false_iff in Ho. destruct Ho as [Ha Hs].
  now rewrite (IH Hs), Ha.
Qed.

Lemma text_after_final_dot_present pre post :
  occurs "."%char post = false ->
  text_after_final_dot (pre ++ String "."%char post) = Some post.
Proof.
  intros Hpost. induction pre as [|a pre IH]; simpl.
  - now rewrite (text_after_final_dot_absent _ Hpost).
  - now rewrite IH.
Qed.

Lemma substring_all s : substring 0 (String.length s) s = s.
Proof. induction s as [|a s IH]; simpl; [reflexivity | now rewrite IH]. Qed.

Lemma slice_from_app pre s :
  slice_from (Z.of_nat (String.length pre)) (pre ++ s) = s.
Proof.
  unfold slice_from. rewrite Nat2Z.id.
  induction pre as [|a pre IH]; simpl.
  - rewrite Nat.sub_0_r. apply substring_all.
  - exact IH.
Qed.

Lemma slice_from_1 a s : slice_from 1 (String a s) = s.
Proof. exact (slice_from_app (String a EmptyString) s). Qed.

(** The extension that [splitext] finds in a name of a visible directory
    entry: the final dot and what follows it. *)
Lemma splitext_visible f :
  is_hidden_file f = false -> occurs "/"%char f = false ->
  snd (splitext f) =
  match text_after_final_dot f with
  | Some ext => String "."%char ext
  | None => EmptyString
  end.
Proof.
  intros Hh Hs. unfold splitext. rewrite (rfind_absent _ _ Hs).
  destruct (occurs "."%char f) eqn:Hd.
  - destruct (rfind_present _ _ Hd) as (pre & post & -> & Hpost & Hr).
    rewrite Hr, (text_after_final_dot_present _ _ Hpost).
    destruct pre as [|a pre].
    + simpl in Hh. discriminate.
    + assert (Ha : a <> "."%char).
      { intros ->. simpl in Hh. discriminate. }
      replace (Z.of_nat (String.length (String a pre)) >? -1) with true
        by (symmetry; apply Z.gtb_lt; lia).
      replace (Z.to_nat (Z.of_nat (String.length (String a pre)) - (-1 + 1)))
        with (S (String.length pre)) by (simpl String.length; lia).
      assert (Hone : String.eqb (slice_one (-1 + 1) (String a pre ++ String "."%char post)) "."
                     = false).
      { apply String.eqb_neq. unfold slice_one. simpl. congruence. }
      cbn [skip_leading_dots]. rewrite Hone. cbn [negb andb snd].
      apply slice_from_app.
  - rewrite (rfind_absent _ _ Hd), (text_after_final_dot_absent _ Hd).
    reflexivity.
Qed.

(** * Order of the files *)













(** * Properties of the resolver *)

Lemma levels_app evs evs' : levels (evs ++ evs') = levels evs ++ levels evs'.
Proof. unfold levels. apply flat_map_app. Qed.

Lemma levels_hashes i l : levels (map (fun f => Hash f i) l) = [].
Proof. induction l as [|f l IH]; [reflexivity | exact IH]. Qed.

Lemma levels_only_hashes evs :
  (forall e, In e evs -> exists f i, e = Hash f i) -> levels evs = [].
Proof.
  induction evs as [|e evs IH]; intros Hall; [reflexivity|].
  destruct (Hall e (or_introl eq_refl)) as (f & i & ->). simpl.
  apply IH. intros e' He'. apply Hall. now right.
Qed.

Section Properties.
Variable sha256_hexdigest : list byte -> string.
Variable fs : file -> option (list byte).

Local Abbreviation rehash_and_add_to_table := (rehash_and_add_to_table sha256_hexdigest fs).
Local Abbreviation find_duplicate_files := (find_duplicate_files sha256_hexdigest fs).
Local Abbreviation get_hash := (get_hash sha256_hexdigest).
Local Abbreviation digest := (digest sha256_hexdigest fs).
Local Abbreviation digest_key := (digest_key sha256_hexdigest fs).
Local Abbreviation level1 := (level1 sha256_hexdigest fs).
Local Abbreviation level2 := (level2 sha256_hexdigest fs).

(** More fuel does not change a run that starts at the last level. *)
Lemma fuel_level2 n t d :
  find_duplicate_files (S n) t d 2 = find_duplicate_files 1 t d 2.
Proof. now rewrite !find_duplicate_files_2. Qed.

Lemma fuel_level1 n t d :
  find_duplicate_files (S (S n)) t d 1 = find_duplicate_files 2 t d 1.
Proof.
  rewrite !find_duplicate_files_S. change (1 =? 2) with false. cbv zeta.
  destruct (Dict.is_empty (pending t)); [reflexivity|].
  destruct (rehash_and_add_to_table _ _ _) as [[t' evs] [|e]]; [|reflexivity].
  now rewrite fuel_level2.
Qed.

Lemma fuel_level0 n t d :
  find_duplicate_files (S (S (S n))) t d 0 = find_duplicate_files 3 t d 0.
Proof.
  rewrite !find_duplicate_files_S. change (0 =? 2) with false. cbv zeta.
  destruct (Dict.is_empty (pending t)); [reflexivity|].
  destruct (rehash_and_add_to_table _ _ _) as [[t' evs] [|e]]; [|reflexivity].
  now rewrite fuel_level1.
Qed.

Lemma returns_level1 t d : exists r, find_duplicate_files 2 t d 1 = Some r.
Proof.
  rewrite find_duplicate_files_S. change (1 =? 2) with false. cbv zeta.
  destruct (Dict.is_empty (pending t)); [eauto|].
  destruct (rehash_and_add_to_table _ _ _) as [[t' evs] [|e]]; [|eauto].
  rewrite find_duplicate_files_2. eauto.
Qed.

Lemma returns_level0 t d : exists r, find_duplicate_files 3 t d 0 = Some r.
Proof.
  rewrite find_duplicate_files_S. change (0 =? 2) with false. cbv zeta.
  destruct (Dict.is_empty (pending t)); [eauto|].
  destruct (rehash_and_add_to_table _ _ _) as [[t' evs] [|e]]; [|eauto].
  change (0 + 1) with 1.
  destruct (returns_level1 t' (classify_unique (singletons t) d)) as [r ->].
  eauto.
Qed.

(** The iterations entered by a run from iteration 0. *)
Lemma run_levels fuel src dst r :
  find_duplicate_files fuel src dst 0 = Some r ->
  levels (events r) = [0] \/ levels (events r) = [0; 1]
  \/ levels (events r) = [0; 1; 2].
Proof.
  intros Hrun. apply run_cases in Hrun. cbv zeta in Hrun.
  destruct Hrun as [(_ & ->) | [(_ & _ & t & evs & -> & Hev)
                   | [(_ & _ & _ & ->) | (_ & _ & _ & ->)]]]; simpl.
  - now left.
  - left. rewrite levels_only_hashes; [reflexivity|].
    intros e He. destruct (Hev e He) as (f & _ & ->). eauto.
  - right; left. now rewrite levels_app, levels_hashes.
  - right; right. rewrite levels_app, levels_hashes. simpl.
    now rewrite levels_app, levels_hashes.
Qed.

(** C2: the refinement stops after at most three levels. A run from
    iteration 0 ends within three nested calls whatever the input is, the
    calls are entered at iterations 0, then 1, then 2 and at no other
    iteration, and a call at iteration 2 classifies the groups it is given
    and returns without hashing or calling itself again. *)
Theorem three_levels (src : Dict.t pykey) (dst : Dict.t string) :
  exists r,
    (forall n, find_duplicate_files (3 + n) src dst 0 = Some r)
    /\ (levels (events r) = [0] \/ levels (events r) = [0; 1]
        \/ levels (events r) = [0; 1; 2])
    /\ (forall n t d,
          find_duplicate_files (S n) t d 2 =
          Some (mkResult t (fst (classify_groups t d)) [Enter 2 t]
                         (snd (classify_groups t d)))).
Proof.
  destruct (returns_level0 src dst) as [r Hr]. exists r.
  split; [|split].
  - intros n. change (3 + n)%nat with (S (S (S n))). now rewrite fuel_level0.
  - exact (run_levels _ _ _ _ Hr).
  - intros n t d. apply find_duplicate_files_2.
Qed.

(** A pass that returns has filed every file of its list. *)
Lemma rehash_files l d i d' evs :
  rehash_and_add_to_table l d i = (d', evs, Returned) ->
  Permutation (Dict.files d') (Dict.files d ++ l).
Proof.
  intros Hre.
  assert (Hall : forall f, In f l -> digest i f <> None)
    by (intros f Hf; eapply rehash_returned; eassumption).
  rewrite rehash_ok in Hre by assumption. inversion Hre.
  apply files_regroup.
Qed.

Lemma pending_files src :
  Permutation (Dict.files (pending src)) (ambiguous src).
Proof. exact (split_groups_snd_files src [] []). Qed.

(** A call that returns has moved every file of its source table to the
    destination table, at whatever iteration it starts. *)
Lemma find_duplicate_files_files fuel :
  forall src dst i r,
    find_duplicate_files fuel src dst i = Some r ->
    ending r = Returned ->
    Permutation (Dict.files (destination r)) (Dict.files dst ++ Dict.files src).
Proof.
  induction fuel as [|fuel IH]; intros src dst i r Hrun Hend; [discriminate|].
  rewrite find_duplicate_files_S in Hrun. destruct (i =? 2).
  - inversion Hrun; subst r; simpl in *.
    apply classify_groups_files.
    rewrite <- Hend. apply surjective_pairing.
  - cbv zeta in Hrun.
    assert (Hd0 : Permutation
                    (Dict.files (classify_unique (singletons src) dst)
                       ++ Dict.files (pending src))
                    (Dict.files dst ++ Dict.files src)).
    { rewrite files_classify_unique, pending_files, (files_split src).
      now rewrite app_assoc. }
    destruct (Dict.is_empty (pending src)) eqn:Hpd.
    + apply is_empty_true in Hpd. inversion Hrun; subst r; simpl.
      rewrite Hpd in Hd0. unfold Dict.files at 2 in Hd0. simpl in Hd0.
      now rewrite app_nil_r in Hd0.
    + destruct (rehash_and_add_to_table _ _ _) as [[t evs] [|e]] eqn:Hre.
      * destruct (find_duplicate_files fuel t _ (i + 1)) as [r'|] eqn:Hrec;
          [|discriminate].
        inversion Hrun; subst r; simpl in *.
        rewrite (IH _ _ _ _ Hrec Hend).
        apply rehash_files in Hre. rewrite Hre. exact Hd0.
      * inversion Hrun; subst r; simpl in Hend. discriminate.
Qed.

(** C1: conservation. When a run of [find_duplicate_files] from iteration 0
    completes without error, the destination table holds the handles it
    held before together with exactly the handles of the input table (as a
    multiset), so the number of handles over all its buckets, the
    extension buckets and ["duplicate-files"], has grown by the number of
    handles of the input. Likewise a pass of [rehash_and_add_to_table] that
    completes adds exactly the handles of its list to its table. *)
Theorem conservation (fuel : nat) (src : Dict.t pykey) (dst : Dict.t string)
    (r : result) (l : list file) (d d' : Dict.t pykey) (i : Z)
    (evs : list event) :
  (find_duplicate_files fuel src dst 0 = Some r ->
   ending r = Returned ->
   Permutation (Dict.files (destination r)) (Dict.files dst ++ Dict.files src)
   /\ Dict.total (destination r) = (Dict.total dst + Dict.total src)%nat)
  /\ (rehash_and_add_to_table l d i = (d', evs, Returned) ->
      Permutation (Dict.files d') (Dict.files d ++ l)
      /\ Dict.total d' = (Dict.total d + List.length l)%nat).
Proof.
  split.
  - intros Hrun Hend.
    pose proof (find_duplicate_files_files _ _ _ _ _ Hrun Hend) as Hp.
    split; [assumption|]. unfold Dict.total.
    now rewrite (Permutation_length Hp), length_app.
  - intros Hre. pose proof (rehash_files _ _ _ _ _ Hre) as Hp.
    split; [assumption|]. unfold Dict.total.
    now rewrite (Permutation_length Hp), length_app.
Qed.

(** The exception of the last branch of [get_hash] is not raised at
    iterations 0 and 1, and only there. *)
Lemma get_hash_raises c i :
  get_hash c i = inl (Exception "Error encountered in get_hash()")
  <-> i <> 0 /\ i <> 1.
Proof.
  unfold get_hash.
  destruct (Z.eqb_spec i 0) as [->|H0]; [split; [discriminate | lia]|].
  destruct (Z.eqb_spec i 1) as [->|H1]; [split; [discriminate | lia]|].
  split; [now split | reflexivity].
Qed.

(** The files hashed by a run from iteration 0. *)
Lemma run_hashes fuel src dst r f i :
  find_duplicate_files fuel src dst 0 = Some r ->
  In (Hash f i) (events r) ->
  (i = 0 /\ In f (ambiguous src))
  \/ (i = 1 /\ In f (ambiguous (level1 src))
      /\ In (Enter 1 (level1 src)) (events r)).
Proof.
  intros Hrun Hin. apply run_cases in Hrun. cbv zeta in Hrun.
  destruct Hrun as [(_ & ->) | [(_ & _ & t & evs & -> & Hev)
                   | [(_ & _ & _ & ->) | (_ & _ & _ & ->)]]]; simpl in Hin.
  - destruct Hin as [Hin|[]]. discriminate.
  - destruct Hin as [Hin|Hin]; [discriminate|].
    destruct (Hev _ Hin) as (f' & Hf' & E). inversion E; subst.
    left. split; [reflexivity | now apply In_pending].
  - destruct Hin as [Hin|Hin]; [discriminate|].
    apply in_app_iff in Hin. destruct Hin as [Hin|[Hin|[]]]; [|discriminate].
    apply in_map_iff in Hin. destruct Hin as (f' & E & Hf'). inversion E; subst.
    left. split; [reflexivity | now apply In_pending].
  - destruct Hin as [Hin|Hin]; [discriminate|].
    apply in_app_iff in Hin. destruct Hin as [Hin|[Hin|Hin]]; [|discriminate|].
    + apply in_map_iff in Hin. destruct Hin as (f' & E & Hf'). inversion E; subst.
      left. split; [reflexivity | now apply In_pending].
    + apply in_app_iff in Hin. destruct Hin as [Hin|[Hin|[]]]; [|discriminate].
      apply in_map_iff in Hin. destruct Hin as (f' & E & Hf'). inversion E; subst.
      right. split; [reflexivity|]. split; [now apply In_pending|].
      right. apply in_app_iff. right. now left.
Qed.

(** The tables on which a run from iteration 0 enters the levels, and what
    is known when it does. *)
Lemma run_enters fuel src dst r i t :
  find_duplicate_files fuel src dst 0 = Some r ->
  In (Enter i t) (events r) ->
  let d1 := classify_unique (singletons (level1 src))
                            (classify_unique (singletons src) dst) in
  (i = 0 /\ t = src)
  \/ (i = 1 /\ t = level1 src
      /\ (forall f, In f (ambiguous src) -> fs f <> None)
      /\ (destination r = d1
          \/ destination r = fst (classify_groups (level2 src) d1)))
  \/ (i = 2 /\ t = level2 src
      /\ (forall f, In f (ambiguous src) -> fs f <> None)
      /\ ending r = Returned
      /\ destination r = fst (classify_groups (level2 src) d1)).
Proof.
  intros Hrun Hin d1. apply run_cases in Hrun. cbv zeta in Hrun. fold d1 in Hrun.
  assert (Hno : forall (j : Z) (l : list file),
             ~ In (Enter i t) (map (fun f => Hash f j) l)).
  { intros j l H. apply in_map_iff in H. destruct H as (? & ? & _). discriminate. }
  destruct Hrun as [(_ & ->) | [(_ & _ & t' & evs & -> & Hev)
                   | [(_ & Hr & _ & ->) | (_ & Hr & _ & ->)]]]; simpl in Hin.
  - destruct Hin as [Hin|[]]. inversion Hin. now left.
  - destruct Hin as [Hin|Hin]; [inversion Hin; now left|].
    destruct (Hev _ Hin) as (? & _ & ?). discriminate.
  - destruct Hin as [Hin|Hin]; [inversion Hin; now left|].
    apply in_app_iff in Hin. destruct Hin as [Hin|[Hin|[]]]; [now apply Hno in Hin|].
    inversion Hin; subst. right; left. repeat split; simpl; auto.
    intros f Hf. now apply Hr, In_pending.
  - destruct Hin as [Hin|Hin]; [inversion Hin; now left|].
    apply in_app_iff in Hin. destruct Hin as [Hin|[Hin|Hin]]; [now apply Hno in Hin| |].
    + inversion Hin; subst. right; left. repeat split; simpl; auto.
      intros f Hf. now apply Hr, In_pending.
    + apply in_app_iff in Hin. destruct Hin as [Hin|[Hin|[]]]; [now apply Hno in Hin|].
      inversion Hin; subst. right; right. repeat split; simpl; auto.
      intros f Hf. now apply Hr, In_pending.
Qed.

(** How a run from iteration 0 can end. *)
Lemma run_ending fuel src dst r :
  find_duplicate_files fuel src dst 0 = Some r ->
  ending r = Returned
  \/ (ending r = Raised (Exception "Unable to read current file")
      /\ destination r = classify_unique (singletons src) dst
      /\ exists f, In f (ambiguous src) /\ fs f = None).
Proof.
  intros Hrun. apply run_cases in Hrun. cbv zeta in Hrun.
  destruct Hrun as [(_ & ->) | [(_ & (f & Hf & Hn) & t & evs & -> & Hev)
                   | [(_ & _ & _ & ->) | (_ & _ & _ & ->)]]]; simpl; auto.
  right. repeat split. exists f. split; [now apply In_pending | assumption].
Qed.

(** C10: the last branch of [get_hash] is out of reach of the resolver.
    In a run of [find_duplicate_files] from iteration 0 every call of
    [get_hash] is made with iteration 0 or 1, for these two values
    [get_hash] does not raise, and the run never ends with the exception
    ["Error encountered in get_hash()"]. *)
Theorem get_hash_error_unreachable (fuel : nat) (src : Dict.t pykey)
    (dst : Dict.t string) (r : result) :
  find_duplicate_files fuel src dst 0 = Some r ->
  (forall f i, In (Hash f i) (events r) ->
     (i = 0 \/ i = 1)
     /\ forall c, get_hash c i <> inl (Exception "Error encountered in get_hash()"))
  /\ ending r <> Raised (Exception "Error encountered in get_hash()").
Proof.
  intros Hrun. split.
  - intros f i Hin.
    assert (Hi : i = 0 \/ i = 1).
    { destruct (run_hashes _ _ _ _ _ _ Hrun Hin) as [[-> _]|[-> _]]; auto. }
    split; [assumption|]. intros c Hc. apply get_hash_raises in Hc. lia.
  - destruct (run_ending _ _ _ _ Hrun) as [-> | (-> & _)]; discriminate.
Qed.


(** In a table without repeated files, a file that is alone in its group
    is in no ambiguous group. *)
Lemma singleton_not_ambiguous (d : Dict.t pykey) k f :
  NoDup (Dict.files d) -> In (k, [f]) d -> ~ In f (ambiguous d).
Proof.
  intros Hnd Hin.
  apply (Permutation_NoDup (files_split d)) in Hnd.
  apply (NoDup_app_disjoint _ _ _ Hnd). apply In_singletons. now exists k.
Qed.

Lemma NoDup_ambiguous (d : Dict.t pykey) :
  NoDup (Dict.files d) -> NoDup (ambiguous d).
Proof.
  intros Hnd. apply (Permutation_NoDup (files_split d)) in Hnd.
  now apply NoDup_app_remove_l in Hnd.
Qed.

Lemma level1_files_perm src :
  Permutation (Dict.files (level1 src)) (ambiguous src).
Proof.
  unfold level1. rewrite files_regroup. simpl. apply pending_files.
Qed.

Lemma level2_files_perm src :
  Permutation (Dict.files (level2 src)) (ambiguous (level1 src)).
Proof.
  unfold level2. rewrite files_regroup. simpl. apply pending_files.
Qed.

Lemma NoDup_level1 src : NoDup (Dict.files src) -> NoDup (Dict.files (level1 src)).
Proof.
  intros Hnd. apply (Permutation_NoDup (Permutation_sym (level1_files_perm src))).
  now apply NoDup_ambiguous.
Qed.

Lemma NoDup_level2 src : NoDup (Dict.files src) -> NoDup (Dict.files (level2 src)).
Proof.
  intros Hnd. apply (Permutation_NoDup (Permutation_sym (level2_files_perm src))).
  now apply NoDup_ambiguous, NoDup_level1.
Qed.

(** What a run from iteration 0 has classified is still classified when
    the run ends, whichever way it ends. *)
Lemma run_keeps_singletons fuel src dst r f :
  find_duplicate_files fuel src dst 0 = Some r ->
  In f (singletons src) ->
  In f (Dict.get (extension_label f) (destination r)).
Proof.
  intros Hrun Hf. apply run_cases in Hrun. cbv zeta in Hrun.
  pose proof (classify_unique_In (singletons src) f dst Hf) as H0.
  destruct Hrun as [(_ & ->) | [(_ & _ & t & evs & -> & Hev)
                   | [(_ & _ & _ & ->) | (_ & _ & _ & ->)]]]; simpl.
  - exact H0.
  - exact H0.
  - now apply classify_unique_mono.
  - now apply classify_groups_mono, classify_unique_mono.
Qed.

(** C3: singleton promotion. In a run from iteration 0 over a table
    without repeated files, a file that is alone in its size group is
    classified by its extension and is never opened or hashed, at any
    iteration; and a file that is alone in its group of level 1 (the table
    of partial digests on which iteration 1 is entered) is classified by
    its extension and is not hashed at iteration 1, the only iteration at
    which anything is hashed from then on. *)
Theorem singleton_promotion (fuel : nat) (src : Dict.t pykey)
    (dst : Dict.t string) (r : result) (f : file) :
  find_duplicate_files fuel src dst 0 = Some r ->
  NoDup (Dict.files src) ->
  (forall k, In (k, [f]) src ->
     In f (Dict.get (extension_label f) (destination r))
     /\ forall i, ~ In (Hash f i) (events r))
  /\ (forall t1 k, In (Enter 1 t1) (events r) -> In (k, [f]) t1 ->
       In f (Dict.get (extension_label f) (destination r))
       /\ forall i, 1 <= i -> ~ In (Hash f i) (events r)).
Proof.
  intros Hrun Hnd. split.
  - intros k Hk. split.
    + apply (run_keeps_singletons _ _ _ _ _ Hrun). apply In_singletons. now exists k.
    + intros i Hin.
      pose proof (singleton_not_ambiguous _ _ _ Hnd Hk) as Hna.
      destruct (run_hashes _ _ _ _ _ _ Hrun Hin) as [[_ Hf]|(_ & Hf & _)].
      * contradiction.
      * apply Hna. apply -> level1_files. apply ambiguous_incl, Hf.
  - intros t1 k Hent Hk.
    destruct (run_enters _ _ _ _ _ _ Hrun Hent)
      as [[E _] | [(_ & -> & _ & Hd) | (E & _)]]; [discriminate | | discriminate].
    assert (Hs : In f (singletons (level1 src))) by (apply In_singletons; eauto).
    split.
    + destruct Hd as [-> | ->].
      * now apply classify_unique_In.
      * now apply classify_groups_mono, classify_unique_In.
    + intros i Hi Hin.
      destruct (run_hashes _ _ _ _ _ _ Hrun Hin) as [[-> _]|(_ & Hf & _)]; [lia|].
      revert Hf. apply (singleton_not_ambiguous _ k); [|assumption].
      now apply NoDup_level1.
Qed.

Lemma same_contents_digest_key i f1 f2 :
  fs f1 = fs f2 -> digest_key i f1 = digest_key i f2.
Proof. unfold digest_key, digest. now intros ->. Qed.

Lemma digest_key_full f c : fs f = Some c -> digest_key 1 f = sha256_hexdigest c.
Proof. unfold digest_key, digest. now intros ->. Qed.

Lemma digest_key_partial f c :
  fs f = Some c ->
  digest_key 0 f = sha256_hexdigest (firstn (Z.to_nat byte_chunk) c).
Proof. unfold digest_key, digest. now intros ->. Qed.

(** Two files of a size-keyed table that have the same contents are in the
    same group, and so are ambiguous at level 0. *)
Lemma same_contents_ambiguous src f1 f2 c :
  NoDup (Dict.keys src) -> size_keyed fs src ->
  In f1 (Dict.files src) -> In f2 (Dict.files src) -> f1 <> f2 ->
  fs f1 = Some c -> fs f2 = Some c ->
  In f1 (ambiguous src) /\ In f2 (ambiguous src).
Proof.
  intros Hnd Hsz H1 H2 Hne Hc1 Hc2.
  apply In_files in H1, H2.
  destruct H1 as (k1 & g1 & Hg1 & H1), H2 as (k2 & g2 & Hg2 & H2).
  pose proof (Hsz _ _ _ _ Hg1 H1 Hc1) as E1.
  pose proof (Hsz _ _ _ _ Hg2 H2 Hc2) as E2.
  assert (g2 = g1).
  { rewrite <- (get_In _ _ _ Hnd Hg1), <- (get_In _ _ _ Hnd Hg2). congruence. }
  subst g2.
  pose proof (two_members _ _ _ H1 H2 Hne) as Hlen.
  split; apply In_ambiguous; exists k1, g1; auto.
Qed.

(** The group of a file at level 1 and at level 2. *)
Lemma level1_same_group src f1 f2 :
  In f1 (ambiguous src) -> In f2 (ambiguous src) -> fs f1 = fs f2 ->
  exists g, In (KStr (digest_key 0 f1), g) (level1 src) /\ In f1 g /\ In f2 g.
Proof.
  intros H1 H2 E. apply regroup_same_group.
  - now apply In_pending.
  - now apply In_pending.
  - now apply same_contents_digest_key.
Qed.

Lemma level2_same_group src f1 f2 :
  In f1 (ambiguous (level1 src)) -> In f2 (ambiguous (level1 src)) ->
  fs f1 = fs f2 ->
  exists g, In (KStr (digest_key 1 f1), g) (level2 src) /\ In f1 g /\ In f2 g.
Proof.
  intros H1 H2 E. apply regroup_same_group.
  - now apply In_pending.
  - now apply In_pending.
  - now apply same_contents_digest_key.
Qed.

(** A run that returns and has ambiguous files at level 1 goes through the
    three levels. *)
Lemma run_three_levels fuel src dst r f :
  find_duplicate_files fuel src dst 0 = Some r ->
  ending r = Returned ->
  In f (ambiguous (level1 src)) ->
  In (Enter 1 (level1 src)) (events r)
  /\ In (Enter 2 (level2 src)) (events r)
  /\ destination r =
       fst (classify_groups (level2 src)
              (classify_unique (singletons (level1 src))
                 (classify_unique (singletons src) dst))).
Proof.
  intros Hrun Hend Hf.
  assert (Hf0 : In f (Dict.files (pending src))).
  { apply In_pending. apply -> level1_files. apply ambiguous_incl, Hf. }
  apply In_pending in Hf.
  apply run_cases in Hrun. cbv zeta in Hrun.
  destruct Hrun as [(Hpd & _) | [(_ & _ & t & evs & -> & Hev)
                   | [(_ & _ & Hpd & _) | (_ & _ & _ & ->)]]].
  - rewrite Hpd in Hf0. contradiction.
  - discriminate.
  - rewrite Hpd in Hf. contradiction.
  - simpl. split; [|split; [|reflexivity]].
    + right. apply in_app_iff. right. now left.
    + right. apply in_app_iff. right. right.
      apply in_app_iff. right. now left.
Qed.

(** What the last level does with the groups of level 2, in a run that
    goes through the three levels. *)
Lemma terminal_step src dst k first others :
  In (k, first :: others) (level2 src) ->
  let d := fst (classify_groups (level2 src) dst) in
  In first (Dict.get (extension_label first) d)
  /\ forall y, In y others -> In y (Dict.get "duplicate-files" d).
Proof.
  intros Hin. apply (classify_groups_In _ _ k); [|assumption].
  apply classify_groups_returns. apply level2_nonempty.
Qed.

(** C4: duplicate symmetry and terminal step. Take a run from iteration 0
    that returns, over a size-keyed table with distinct keys and without
    repeated files, with an empty destination table, and two different
    files of the table with the same contents. Then the run reaches
    iteration 2, the two files are in one group of the table of level 2,
    the group of the digest of their contents; and of every group of
    level 2 the first member is classified under the label of its extension
    and under no other label, and every other member is filed under
    ["duplicate-files"] and under no other label. *)
Theorem duplicate_symmetry (fuel : nat) (src : Dict.t pykey) (r : result)
    (f1 f2 : file) (c : list byte) :
  find_duplicate_files fuel src [] 0 = Some r ->
  ending r = Returned ->
  NoDup (Dict.keys src) ->
  NoDup (Dict.files src) ->
  size_keyed fs src ->
  In f1 (Dict.files src) -> In f2 (Dict.files src) -> f1 <> f2 ->
  fs f1 = Some c -> fs f2 = Some c ->
  In (Enter 2 (level2 src)) (events r)
  /\ (exists g, In (KStr (sha256_hexdigest c), g) (level2 src)
               /\ In f1 g /\ In f2 g)
  /\ (forall k first others, In (k, first :: others) (level2 src) ->
        (In first (Dict.get (extension_label first) (destination r))
         /\ forall label, In first (Dict.get label (destination r)) ->
                          label = extension_label first)
        /\ forall y, In y others ->
             In y (Dict.get "duplicate-files" (destination r))
             /\ forall label, In y (Dict.get label (destination r)) ->
                              label = "duplicate-files").
Proof.
  intros Hrun Hend Hkeys Hfiles Hsz H1 H2 Hne Hc1 Hc2.
  destruct (same_contents_ambiguous _ _ _ _ Hkeys Hsz H1 H2 Hne Hc1 Hc2)
    as [Ha1 Ha2].
  assert (E : fs f1 = fs f2) by congruence.
  destruct (level1_same_group _ _ _ Ha1 Ha2 E) as (g1 & Hg1 & Hf1 & Hf2).
  assert (Hb1 : In f1 (ambiguous (level1 src))).
  { apply In_ambiguous. exists (KStr (digest_key 0 f1)), g1.
    repeat split; try assumption. exact (two_members _ _ _ Hf1 Hf2 Hne). }
  assert (Hb2 : In f2 (ambiguous (level1 src))).
  { apply In_ambiguous. exists (KStr (digest_key 0 f1)), g1.
    repeat split; try assumption. exact (two_members _ _ _ Hf1 Hf2 Hne). }
  destruct (run_three_levels _ _ _ _ _ Hrun Hend Hb1) as (_ & Hent & Hdst).
  split; [assumption|]. split.
  - destruct (level2_same_group _ _ _ Hb1 Hb2 E) as (g2 & Hg2 & Hm1 & Hm2).
    exists g2. rewrite (digest_key_full _ _ Hc1) in Hg2. auto.
  - intros k first others Hin.
    assert (Hnd : NoDup (Dict.files (destination r))).
    { pose proof (find_duplicate_files_files _ _ _ _ _ Hrun Hend) as Hp.
      apply (Permutation_NoDup (Permutation_sym Hp)). exact Hfiles. }
    rewrite Hdst in *.
    destruct (terminal_step src
                (classify_unique (singletons (level1 src))
                   (classify_unique (singletons src) [])) k first others Hin)
      as [Hfirst Hothers].
    split; [split|].
    + exact Hfirst.
    + intros label Hl. exact (one_bucket _ _ _ _ Hnd Hl Hfirst).
    + intros y Hy. split; [now apply Hothers|].
      intros label Hl. exact (one_bucket _ _ _ _ Hnd Hl (Hothers y Hy)).
Qed.

End Properties.

(** ** Two runs *)

Section TwoRuns.
Variable sha256_hexdigest : list byte -> string.
Variables fs fs' : file -> option (list byte).



End TwoRuns.

(** ** The survivor of a group of duplicates *)

Section Survivor.
Variable sha256_hexdigest : list byte -> string.
Variable fs : file -> option (list byte).

Local Abbreviation digest_key := (digest_key sha256_hexdigest fs).
Local Abbreviation level1 := (level1 sha256_hexdigest fs).
Local Abbreviation level2 := (level2 sha256_hexdigest fs).


End Survivor.


(** ** Pooling of the groups *)

Section Pooling.
Variable sha256_hexdigest : list byte -> string.
Variable fs : file -> option (list byte).

Local Abbreviation digest_key := (digest_key sha256_hexdigest fs).
Local Abbreviation level1 := (level1 sha256_hexdigest fs).
Local Abbreviation level2 := (level2 sha256_hexdigest fs).

(** A run that returns and has ambiguous files in its input enters
    iteration 1. *)
Lemma run_level1 fuel src dst r f :
  find_duplicate_files sha256_hexdigest fs fuel src dst 0 = Some r ->
  ending r = Returned ->
  In f (ambiguous src) ->
  In (Enter 1 (level1 src)) (events r)
  /\ forall f, In f (ambiguous src) -> fs f <> None.
Proof.
  intros Hrun Hend Hf. apply In_pending in Hf.
  apply run_cases in Hrun. cbv zeta in Hrun.
  destruct Hrun as [(Hpd & _) | [(_ & _ & t & evs & -> & Hev)
                   | [(_ & Hr & _ & ->) | (_ & Hr & _ & ->)]]].
  - rewrite Hpd in Hf. contradiction.
  - discriminate.
  - simpl. split; [|intros f' Hf'; now apply Hr, In_pending].
    right. apply in_app_iff. right. now left.
  - simpl. split; [|intros f' Hf'; now apply Hr, In_pending].
    right. apply in_app_iff. right. now left.
Qed.

(** The groups of level 1 are keyed by the partial digest of their
    members, and those of level 2 by their full digest. *)
Lemma level1_keys src k g f :
  (forall f, In f (ambiguous src) -> fs f <> None) ->
  In (k, g) (level1 src) -> In f g ->
  exists c, fs f = Some c
            /\ k = KStr (sha256_hexdigest (firstn (Z.to_nat byte_chunk) c)).
Proof.
  intros Hr Hin Hf. destruct (regroup_key _ _ _ _ _ Hin Hf) as [Hp ->].
  apply In_pending, Hr in Hp. destruct (fs f) as [c|] eqn:Hc; [|congruence].
  exists c. split; [reflexivity|].
  now rewrite (digest_key_partial sha256_hexdigest fs f c Hc).
Qed.

Lemma level2_keys src k g f :
  (forall f, In f (ambiguous src) -> fs f <> None) ->
  In (k, g) (level2 src) -> In f g ->
  exists c, fs f = Some c /\ k = KStr (sha256_hexdigest c).
Proof.
  intros Hr Hin Hf. destruct (regroup_key _ _ _ _ _ Hin Hf) as [Hp ->].
  assert (Hc : fs f <> None).
  { apply Hr. apply In_pending in Hp.
    apply -> (level1_files sha256_hexdigest fs). apply ambiguous_incl, Hp. }
  destruct (fs f) as [c|] eqn:Ec; [|congruence].
  exists c. split; [reflexivity|].
  now rewrite (digest_key_full sha256_hexdigest fs f c Ec).
Qed.

End Pooling.

(** C9: cross-size pooling. Take a run from iteration 0 that returns, and
    two different files of two different groups of the input table, each
    group with more than one member, whose first [byte_chunk] bytes are the
    same. The run enters iteration 1 on a table whose groups are keyed by
    the partial digest of their members only, and the two files are in one
    group of that table although their sizes differ. The final
    classification is right all the same: the run goes on to iteration 2,
    on a table whose groups are keyed by the full digest of their members;
    in the destination table the first member of each of these groups is
    classified by its extension and every other member is filed under
    ["duplicate-files"], so each of the two files is the survivor of its
    group or is filed as a duplicate of a survivor whose contents have the
    same full digest; and when the digests of their contents differ the two
    files are in no common group of level 2, so neither is filed as a
    duplicate of the other. *)
Theorem cross_size_pooling (sha256_hexdigest : list byte -> string)
    (fs : file -> option (list byte)) (fuel : nat)
    (src : Dict.t pykey) (dst : Dict.t string) (r : result)
    (k1 k2 : pykey) (g1 g2 : list file) (f1 f2 : file) (c1 c2 : list byte) :
  find_duplicate_files sha256_hexdigest fs fuel src dst 0 = Some r ->
  ending r = Returned ->
  In (k1, g1) src -> In (k2, g2) src -> k1 <> k2 ->
  (1 < List.length g1)%nat -> (1 < List.length g2)%nat ->
  In f1 g1 -> In f2 g2 -> f1 <> f2 ->
  fs f1 = Some c1 -> fs f2 = Some c2 ->
  firstn (Z.to_nat byte_chunk) c1 = firstn (Z.to_nat byte_chunk) c2 ->
  let t1 := level1 sha256_hexdigest fs src in
  let t2 := level2 sha256_hexdigest fs src in
  let classified_with (f : file) (c : list byte) :=
    exists k first others,
      In (k, first :: others) t2 /\ In f (first :: others)
      /\ k = KStr (sha256_hexdigest c)
      /\ full_digest sha256_hexdigest fs first = Some (sha256_hexdigest c)
      /\ In first (Dict.get (extension_label first) (destination r))
      /\ (f = first \/ In f (Dict.get "duplicate-files" (destination r))) in
  In (Enter 1 t1) (events r)
  /\ (forall k g f, In (k, g) t1 -> In f g ->
        exists c, fs f = Some c
          /\ k = KStr (sha256_hexdigest (firstn (Z.to_nat byte_chunk) c)))
  /\ (exists g,
        In (KStr (sha256_hexdigest (firstn (Z.to_nat byte_chunk) c1)), g) t1
        /\ In f1 g /\ In f2 g)
  /\ In (Enter 2 t2) (events r)
  /\ (forall t, In (Enter 2 t) (events r) -> t = t2)
  /\ (forall k first others, In (k, first :: others) t2 ->
        In first (Dict.get (extension_label first) (destination r))
        /\ (forall y, In y others ->
              In y (Dict.get "duplicate-files" (destination r)))
        /\ (forall y, In y (first :: others) ->
              exists c, fs y = Some c /\ k = KStr (sha256_hexdigest c)))
  /\ classified_with f1 c1
  /\ classified_with f2 c2
  /\ (sha256_hexdigest c1 <> sha256_hexdigest c2 ->
      forall k g, In (k, g) t2 -> ~ (In f1 g /\ In f2 g)).
Proof.
  intros Hrun Hend Hg1 Hg2 Hk Hl1 Hl2 Hf1 Hf2 Hne Hc1 Hc2 Hpre t1 t2 classified_with.
  assert (Ha1 : In f1 (ambiguous src)).
  { apply In_ambiguous. exists k1, g1. repeat split; auto. lia. }
  assert (Ha2 : In f2 (ambiguous src)).
  { apply In_ambiguous. exists k2, g2. repeat split; auto. lia. }
  destruct (run_level1 _ _ _ _ _ _ _ Hrun Hend Ha1) as [Hent Hr].
  (* the common group of level 1 *)
  assert (Hcommon : exists g,
             In (KStr (sha256_hexdigest (firstn (Z.to_nat byte_chunk) c1)), g) t1
             /\ In f1 g /\ In f2 g).
  { rewrite <- (digest_key_partial sha256_hexdigest fs f1 c1 Hc1).
    apply regroup_same_group.
    - now apply In_pending.
    - now apply In_pending.
    - rewrite (digest_key_partial sha256_hexdigest fs f1 c1 Hc1).
      rewrite (digest_key_partial sha256_hexdigest fs f2 c2 Hc2).
      now rewrite Hpre. }
  (* both files are still ambiguous at level 1, so level 2 is entered *)
  assert (Hb : In f1 (ambiguous t1) /\ In f2 (ambiguous t1)).
  { destruct Hcommon as (g & Hg & Hm1 & Hm2).
    split; apply In_ambiguous; eexists; exists g;
      (repeat split; [exact Hg | assumption | exact (two_members _ _ _ Hm1 Hm2 Hne)]). }
  destruct Hb as [Hb1 Hb2].
  destruct (run_three_levels sha256_hexdigest fs fuel src dst r f1 Hrun Hend Hb1)
    as (_ & Hent2 & Hdst).
  (* the groups of level 2 and what the last level does with them *)
  assert (Hkeys : forall k g y, In (k, g) t2 -> In y g ->
             exists c, fs y = Some c /\ k = KStr (sha256_hexdigest c)).
  { intros k g y Hin Hy. now apply (level2_keys sha256_hexdigest fs src k g y). }
  assert (Hlast : forall k first others, In (k, first :: others) t2 ->
             In first (Dict.get (extension_label first) (destination r))
             /\ forall y, In y others ->
                  In y (Dict.get "duplicate-files" (destination r))).
  { intros k first others Hin. rewrite Hdst.
    exact (terminal_step sha256_hexdigest fs src _ k first others Hin). }
  assert (Hclass : forall f c, In f (ambiguous t1) -> fs f = Some c ->
             classified_with f c).
  { intros f c Hf Hc.
    assert (H2 : In f (Dict.files t2))
      by now apply (level2_files sha256_hexdigest fs).
    apply In_files in H2. destruct H2 as (k & g & Hkg & Hfg).
    destruct g as [|first others]; [contradiction|].
    destruct (Hkeys k _ f Hkg Hfg) as (c' & Hc' & Ek).
    rewrite Hc in Hc'. inversion Hc'; subst c'.
    destruct (Hkeys k _ first Hkg (or_introl eq_refl)) as (cf & Hcf & Ek').
    destruct (Hlast k first others Hkg) as [Hfirst Hothers].
    exists k, first, others. repeat split; try assumption.
    - unfold full_digest. rewrite Hcf. simpl. congruence.
    - destruct Hfg as [E|Hfo]; [left; now symmetry | right; now apply Hothers]. }
  split; [exact Hent|]. split; [|split; [exact Hcommon|]].
  { intros k g f. now apply level1_keys. }
  split; [exact Hent2|]. split; [|split; [|split; [|split]]].
  - intros t Ht.
    destruct (run_enters _ _ _ _ _ _ _ _ Hrun Ht)
      as [[E _] | [(E & _) | (_ & -> & _)]]; [discriminate | discriminate |].
    reflexivity.
  - intros k first others Hin. destruct (Hlast k first others Hin) as [H1 H2].
    split; [exact H1|]. split; [exact H2|].
    intros y Hy. now apply (Hkeys k (first :: others)).
  - now apply Hclass.
  - now apply Hclass.
  - intros Hdiff k g Hin [Hm1 Hm2].
    destruct (Hkeys _ _ _ Hin Hm1) as (c & Hc & ->).
    destruct (Hkeys _ _ _ Hin Hm2) as (c' & Hc' & E).
    rewrite Hc1 in Hc. rewrite Hc2 in Hc'. inversion Hc; inversion Hc'; subst.
    inversion E. congruence.
Qed.

(** ** The label of a unique file *)

(** C7: classification labeling. For the name of a visible directory
    entry (it does not start with a dot and has no ['/'], as the names that
    [main] passes on), [add_unique_file_to_table] appends the file to the
    bucket whose label is the text after the final dot of the name, without
    the dot, followed by ["-files"]; a name without a dot goes to the bucket
    ["no-extension-files"], as ["README"] does. *)
Theorem extension_classification (f : file) (dst : Dict.t string) :
  is_hidden_file f = false ->
  occurs "/"%char f = false ->
  extension_label f = label_of_text_after_final_dot f
  /\ (occurs "."%char f = false -> extension_label f = "no-extension-files")
  /\ add_unique_file_to_table f dst =
     Dict.append (label_of_text_after_final_dot f) f dst
  /\ In f (Dict.get (label_of_text_after_final_dot f)
                    (add_unique_file_to_table f dst))
  /\ add_unique_file_to_table "README" dst =
     Dict.append "no-extension-files" "README" dst.
Proof.
  intros Hh Hs.
  assert (E : extension_label f = label_of_text_after_final_dot f).
  { unfold extension_label, label_of_text_after_final_dot.
    rewrite (splitext_visible f Hh Hs).
    destruct (text_after_final_dot f) as [ext|]; [|reflexivity].
    cbn [String.eqb]. now rewrite slice_from_1. }
  split; [exact E|]. split; [|split; [|split]].
  - intros Hd. rewrite E. unfold label_of_text_after_final_dot.
    now rewrite (text_after_final_dot_absent f Hd).
  - unfold add_unique_file_to_table. now rewrite E.
  - unfold add_unique_file_to_table. rewrite E. apply get_append_same.
  - reflexivity.
Qed.

(** ** The scenario of the four files *)

Section Scenario.
Variable sha256_hexdigest : list byte -> string.
Variable fs : file -> option (list byte).
Variables X Y : list byte.
Hypothesis a_txt : fs "a.txt" = Some X.
Hypothesis b_txt : fs "b.txt" = Some X.
Hypothesis c_txt : fs "c.txt" = Some Y.
Hypothesis size_X : List.length X = 10%nat.
Hypothesis size_Y : List.length Y = 10%nat.
Hypothesis X_not_Y : sha256_hexdigest X <> sha256_hexdigest Y.

Lemma chunk_X : firstn (Z.to_nat byte_chunk) X = X.
Proof. apply firstn_all2. rewrite size_X. unfold byte_chunk. lia. Qed.

Lemma chunk_Y : firstn (Z.to_nat byte_chunk) Y = Y.
Proof. apply firstn_all2. rewrite size_Y. unfold byte_chunk. lia. Qed.

Lemma digest_X_Y : String.eqb (sha256_hexdigest X) (sha256_hexdigest Y) = false.
Proof. now apply String.eqb_neq. Qed.

Lemma digest_Y_X : String.eqb (sha256_hexdigest Y) (sha256_hexdigest X) = false.
Proof. apply String.eqb_neq. congruence. Qed.

(** One step of the run: compute, then read the directory and compare the
    digests. *)
Ltac run_step :=
  cbn -[Z.to_nat extension_label];
  rewrite ?a_txt, ?b_txt, ?c_txt, ?chunk_X, ?chunk_Y,
    ?String.eqb_refl, ?digest_X_Y, ?digest_Y_X.

Ltac run_scenario :=
  do 12 run_step;
  change (extension_label "a.txt") with "txt-files";
  change (extension_label "c.txt") with "txt-files";
  change (extension_label "d.log") with "log-files";
  cbn.

Ltac not_hashed :=
  let H := fresh in
  intros H; cbn in H;
  repeat (destruct H as [H|H]; [discriminate H || (inversion H; fail) |]);
  exact H.

(** C8: the scenario of the four files. [a.txt] and [b.txt] hold the same
    10 bytes [X], [c.txt] holds 10 bytes [Y] whose digest differs from that
    of [X], and [d.log] is alone in the group of size 20, whatever its
    20 bytes are. Whatever the order of the two size groups and of the
    files of size 10, as long as [a.txt] comes before
    [b.txt], the run returns with ["txt-files"] holding [c.txt] and
    [a.txt], ["log-files"] holding [d.log] and ["duplicate-files"] holding
    [b.txt], and nothing else. [d.log] is never hashed: it is resolved at
    level 0. [c.txt] is alone in its group of level 1 and is hashed at
    iteration 0 only: it is resolved by its partial digest. *)
Theorem four_files_scenario (g10 : list file) (src : Dict.t pykey) :
  In g10 [["a.txt"; "b.txt"; "c.txt"]; ["a.txt"; "c.txt"; "b.txt"];
          ["c.txt"; "a.txt"; "b.txt"]] ->
  In src [[(KInt 10, g10); (KInt 20, ["d.log"])];
          [(KInt 20, ["d.log"]); (KInt 10, g10)]] ->
  exists r,
    (forall n, find_duplicate_files sha256_hexdigest fs (3 + n) src [] 0 = Some r)
    /\ ending r = Returned
    /\ destination r =
       [("log-files", ["d.log"]); ("txt-files", ["c.txt"; "a.txt"]);
        ("duplicate-files", ["b.txt"])]
    /\ Permutation (Dict.get "txt-files" (destination r)) ["a.txt"; "c.txt"]
    /\ (forall i, ~ In (Hash "d.log" i) (events r))
    /\ In (Hash "c.txt" 0) (events r)
    /\ ~ In (Hash "c.txt" 1) (events r)
    /\ exists t1, In (Enter 1 t1) (events r)
                  /\ In (KStr (sha256_hexdigest Y), ["c.txt"]) t1.
Proof.
  intros Hg Hsrc.
  assert (Hrun : exists r,
             find_duplicate_files sha256_hexdigest fs 3 src [] 0 = Some r
             /\ ending r = Returned
             /\ destination r =
                [("log-files", ["d.log"]); ("txt-files", ["c.txt"; "a.txt"]);
                 ("duplicate-files", ["b.txt"])]
             /\ (forall i, ~ In (Hash "d.log" i) (events r))
             /\ In (Hash "c.txt" 0) (events r)
             /\ ~ In (Hash "c.txt" 1) (events r)
             /\ exists t1, In (Enter 1 t1) (events r)
                           /\ In (KStr (sha256_hexdigest Y), ["c.txt"]) t1).
  { destruct Hg as [<-|[<-|[<-|[]]]]; destruct Hsrc as [<-|[<-|[]]];
      eexists; (split; [run_scenario; reflexivity|]); cbn;
      (split; [reflexivity|]); (split; [reflexivity|]);
      (split; [intros i; not_hashed|]);
      (split; [tauto|]); (split; [not_hashed|]);
      eexists; (split; [do 4 right; left; reflexivity | now (left + (right; left))]). }
  destruct Hrun as (r & Hr & Hend & Hdst & Hd & Hc0 & Hc1 & Ht1).
  exists r. split.
  { intros n. change (3 + n)%nat with (S (S (S n))). now rewrite fuel_level0. }
  repeat (split; [assumption|]). split; [|auto].
  rewrite Hdst. cbn. apply perm_swap.
Qed.

End Scenario.

(** * The properties on the example directories *)

Lemma sample_run :
  find_duplicate_files Sample.hexdigest Sample.fs 3 Sample.hashed_files [] 0
  = Some Sample.run.
Proof. vm_compute. reflexivity. Qed.


Lemma sample_run_big :
  find_duplicate_files Sample.hexdigest Sample.fs_big 3
    Sample.hashed_files_big [] 0
  = Some Sample.run_big.
Proof. vm_compute. reflexivity. Qed.

Lemma sample_NoDup_files : NoDup (Dict.files Sample.hashed_files).
Proof.
  cbn. repeat constructor; cbn; intuition discriminate.
Qed.

Lemma sample_NoDup_keys : NoDup (Dict.keys Sample.hashed_files).
Proof.
  cbn. repeat constructor; cbn; intuition discriminate.
Qed.

Lemma sample_size_keyed : size_keyed Sample.fs Sample.hashed_files.
Proof.
  intros k g f c Hkg Hf Hc. cbn in Hkg.
  destruct Hkg as [E|[E|[]]]; inversion E; subst; cbn in Hf;
    repeat (destruct Hf as [<-|Hf]; [vm_compute in Hc; now inversion Hc|]);
    contradiction.
Qed.


Lemma conservation_witness :
  Dict.total (destination Sample.run) = 4%nat
  /\ Dict.total (fst (fst Sample.pass)) = 3%nat.
Proof.
  destruct (conservation Sample.hexdigest Sample.fs 3 Sample.hashed_files []
              Sample.run ["a.txt"; "b.txt"; "c.txt"] []
              (fst (fst Sample.pass)) 0 (snd (fst Sample.pass)))
    as [Hrun Hpass].
  split.
  - exact (proj2 (Hrun sample_run eq_refl)).
  - exact (proj2 (Hpass eq_refl)).
Defined.

Lemma singleton_promotion_witness :
  (In "d.log" (Dict.get "log-files" (destination Sample.run))
   /\ forall i, ~ In (Hash "d.log" i) (events Sample.run))
  /\ (In "c.txt" (Dict.get "txt-files" (destination Sample.run))
      /\ forall i, 1 <= i -> ~ In (Hash "c.txt" i) (events Sample.run)).
Proof.
  split.
  - apply (proj1 (singleton_promotion Sample.hexdigest Sample.fs 3
                    Sample.hashed_files [] Sample.run "d.log"
                    sample_run sample_NoDup_files) (KInt 20)).
    cbn. right. left. reflexivity.
  - apply (proj2 (singleton_promotion Sample.hexdigest Sample.fs 3
                    Sample.hashed_files [] Sample.run "c.txt"
                    sample_run sample_NoDup_files)
             [(KStr "XXXXXXXXXX", ["a.txt"; "b.txt"]);
              (KStr "YYYYYYYYYY", ["c.txt"])]
             (KStr "YYYYYYYYYY")).
    + cbn. do 4 right. left. reflexivity.
    + cbn. right. left. reflexivity.
Defined.

Lemma duplicate_symmetry_witness :
  exists g,
    In (KStr (Sample.hexdigest Sample.X), g)
       (level2 Sample.hexdigest Sample.fs Sample.hashed_files)
    /\ In "a.txt" g /\ In "b.txt" g.
Proof.
  refine (proj1 (proj2 (duplicate_symmetry Sample.hexdigest Sample.fs 3
            Sample.hashed_files Sample.run "a.txt" "b.txt" Sample.X
            sample_run eq_refl sample_NoDup_keys sample_NoDup_files
            sample_size_keyed _ _ _ eq_refl eq_refl))).
  - cbn. left. reflexivity.
  - cbn. right. left. reflexivity.
  - discriminate.
Defined.




Lemma extension_classification_witness :
  extension_label "archive.tar.gz" = "gz-files"
  /\ In "archive.tar.gz"
        (Dict.get "gz-files" (add_unique_file_to_table "archive.tar.gz" [])).
Proof.
  destruct (extension_classification "archive.tar.gz" [] eq_refl eq_refl)
    as (Hlabel & _ & _ & Hin & _).
  split; [exact Hlabel | exact Hin].
Defined.

Lemma four_files_scenario_witness :
  exists r,
    (forall n, find_duplicate_files Sample.hexdigest Sample.fs (3 + n)
                 Sample.hashed_files [] 0 = Some r)
    /\ destination r =
       [("log-files", ["d.log"]); ("txt-files", ["c.txt"; "a.txt"]);
        ("duplicate-files", ["b.txt"])].
Proof.
  destruct (four_files_scenario Sample.hexdigest Sample.fs
              Sample.X Sample.Y eq_refl eq_refl eq_refl eq_refl eq_refl)
    with (g10 := ["a.txt"; "b.txt"; "c.txt"]) (src := Sample.hashed_files)
    as (r & Hrun & _ & Hdst & _).
  - vm_compute. discriminate.
  - left. reflexivity.
  - left. reflexivity.
  - exists r. split; assumption.
Defined.

Lemma get_hash_error_unreachable_witness :
  (forall f i, In (Hash f i) (events Sample.run) -> i = 0 \/ i = 1)
  /\ ending Sample.run <> Raised (Exception "Error encountered in get_hash()").
Proof.
  destruct (get_hash_error_unreachable Sample.hexdigest Sample.fs 3
              Sample.hashed_files [] Sample.run sample_run) as [Hh He].
  split; [|exact He].
  intros f i Hin. exact (proj1 (Hh f i Hin)).
Defined.

Lemma cross_size_pooling_witness :
  (exists first,
     In first (Dict.get (extension_label first) (destination Sample.run_big))
     /\ ("p.bin" = first
         \/ In "p.bin" (Dict.get "duplicate-files" (destination Sample.run_big))))
  /\ (exists g,
     In (KStr (Sample.hexdigest (firstn (Z.to_nat byte_chunk) Sample.P)), g)
        (level1 Sample.hexdigest Sample.fs_big Sample.hashed_files_big)
     /\ In "p.bin" g /\ In "q.bin" g)
  /\ In (Enter 2 (level2 Sample.hexdigest Sample.fs_big Sample.hashed_files_big))
        (events Sample.run_big)
  /\ (forall k g,
        In (k, g) (level2 Sample.hexdigest Sample.fs_big Sample.hashed_files_big) ->
        ~ (In "p.bin" g /\ In "q.bin" g)).
Proof.
  destruct (cross_size_pooling Sample.hexdigest Sample.fs_big 3
              Sample.hashed_files_big [] Sample.run_big
              (KInt 1025) (KInt 1026) ["p.bin"; "p2.bin"] ["q.bin"; "q2.bin"]
              "p.bin" "q.bin" Sample.P Sample.Q
              sample_run_big eq_refl)
    as (_ & _ & Hcommon & Hent2 & _ & _ & Hp & _ & Hsep).
  - cbn. left. reflexivity.
  - cbn. right. left. reflexivity.
  - discriminate.
  - cbn. lia.
  - cbn. lia.
  - cbn. left. reflexivity.
  - cbn. left. reflexivity.
  - discriminate.
  - reflexivity.
  - reflexivity.
  - vm_compute. reflexivity.
  - split.
    { destruct Hp as (k & first & others & _ & _ & _ & _ & Hfirst & Hor).
      exists first. split; assumption. }
    split; [exact Hcommon|]. split; [exact Hent2|].
    apply Hsep. vm_compute. intros E.
    apply (f_equal String.length) in E. vm_compute in E. discriminate.
Defined.

(** * Further properties of the resolver *)

Section Calls.
Variable sha256_hexdigest : list byte -> string.
Variable fs : file -> option (list byte).

Local Abbreviation rehash := (rehash_and_add_to_table sha256_hexdigest fs).
Local Abbreviation resolver := (find_duplicate_files sha256_hexdigest fs).

(** A result does not depend on the fuel that is left over. *)
Lemma fuel_more fuel :
  forall src dst i r,
    resolver fuel src dst i = Some r -> resolver (S fuel) src dst i = Some r.
Proof.
  induction fuel as [|fuel IH]; intros src dst i r Hrun; [discriminate|].
  rewrite find_duplicate_files_S in Hrun. rewrite find_duplicate_files_S.
  destruct (i =? 2); [assumption|]. cbv zeta in *.
  destruct (Dict.is_empty (pending src)); [assumption|].
  destruct (rehash _ _ _) as [[t evs] [|e]]; [|assumption].
  destruct (resolver fuel t _ (i + 1)) as [r'|] eqn:Hrec; [|discriminate].
  now rewrite (IH _ _ _ _ Hrec).
Qed.

Lemma fuel_plus n fuel src dst i r :
  resolver fuel src dst i = Some r -> resolver (fuel + n) src dst i = Some r.
Proof.
  intros Hrun. induction n as [|n IH].
  - now rewrite Nat.add_0_r.
  - rewrite Nat.add_succ_r. now apply fuel_more.
Qed.

(** At an iteration other than 0 and 1 no file can be hashed. *)
Lemma rehash_invalid_iteration f l d i :
  i <> 0 -> i <> 1 ->
  exists e, rehash (f :: l) d i = (d, [Hash f i], Raised e).
Proof.
  intros H0 H1. simpl. destruct (fs f) as [c|]; [|eauto].
  unfold get_hash. destruct (Z.eqb_spec i 0); [contradiction|].
  destruct (Z.eqb_spec i 1); [contradiction|]. eauto.
Qed.

Lemma returns_at_any_iteration src dst i :
  exists r, resolver 3 src dst i = Some r.
Proof.
  destruct (Z.eq_dec i 0) as [->|H0]; [apply returns_level0|].
  destruct (Z.eq_dec i 1) as [->|H1].
  { destruct (returns_level1 sha256_hexdigest fs src dst) as [r Hr].
    exists r. now apply fuel_more. }
  rewrite find_duplicate_files_S. destruct (i =? 2); [eauto|]. cbv zeta.
  destruct (Dict.is_empty (pending src)); [eauto|].
  destruct (Dict.files (pending src)) as [|f l].
  - cbn [rehash_and_add_to_table]. rewrite find_duplicate_files_S.
    destruct (i + 1 =? 2); [eauto|]. cbv zeta. cbn. eauto.
  - destruct (rehash_invalid_iteration f l [] i H0 H1) as [e ->]. eauto.
Qed.

(** X1: [find_duplicate_files] ends at whatever iteration it is called.
    Three nested calls are enough for every source table, destination
    table and value of [iteration], also the negative ones and those above
    2, and more fuel gives the same result. *)
Theorem terminates_at_any_iteration (src : Dict.t pykey) (dst : Dict.t string)
    (i : Z) :
  exists r, forall n, resolver (3 + n) src dst i = Some r.
Proof.
  destruct (returns_at_any_iteration src dst i) as [r Hr].
  exists r. intros n. now apply fuel_plus.
Qed.

(** When every group has one member nothing is pending. *)
Lemma all_singletons (src : Dict.t pykey) :
  (forall k g, In (k, g) src -> List.length g = 1%nat) ->
  pending src = [] /\ singletons src = Dict.files src.
Proof.
  intros Hall.
  assert (Hamb : ambiguous_groups src = [] /\ singletons src = Dict.files src).
  { induction src as [|[k g] src IH]; [now split|].
    destruct IH as [IH1 IH2].
    { intros k' g' Hin. apply (Hall k' g'). now right. }
    pose proof (Hall k g (or_introl eq_refl)) as Hg.
    destruct g as [|f [|f' g]]; try discriminate.
    unfold ambiguous_groups in *. simpl. split; [assumption|].
    rewrite files_cons. simpl. f_equal. exact IH2. }
  destruct Hamb as [Hamb Hs]. split; [|assumption].
  pose proof (pending_files src) as Hp. unfold ambiguous in Hp.
  rewrite Hamb in Hp.
  destruct (pending src) as [|[k g] p] eqn:E; [reflexivity|].
  (* a pending group would be an ambiguous group of the table *)
  exfalso. clear Hp Hs. revert E. unfold pending.
  assert (Hgen : forall items dst pd,
             (forall k g, In (k, g) items -> List.length g = 1%nat) ->
             snd (split_groups items dst pd) = pd).
  { induction items as [|[k' g'] items IH]; intros dst pd Hi; [reflexivity|].
    pose proof (Hi k' g' (or_introl eq_refl)) as Hg'.
    destruct g' as [|f [|f' g']]; try discriminate. simpl.
    apply IH. intros k'' g'' Hin. apply (Hi k'' g''). now right. }
  rewrite (Hgen src [] [] Hall). discriminate.
Qed.

(** X2: a table in which every file is alone in its group (and so an
    empty table) is resolved by the first call alone. No file is opened,
    every file is appended to the bucket of its extension in the order of
    the table, the source table is left as it is and the call returns. *)
Theorem all_unique_at_level_0 (n : nat) (src : Dict.t pykey)
    (dst : Dict.t string) :
  (forall k g, In (k, g) src -> List.length g = 1%nat) ->
  resolver (S n) src dst 0 =
  Some (mkResult src (classify_unique (Dict.files src) dst)
                 [Enter 0 src] Returned).
Proof.
  intros Hall. destruct (all_singletons src Hall) as [Hpd Hs].
  rewrite find_duplicate_files_S. change (0 =? 2) with false. cbv zeta.
  now rewrite Hpd, Hs.
Qed.

Lemma classify_groups_app t1 t2 dst :
  (forall k g, In (k, g) t1 -> g <> []) ->
  classify_groups (t1 ++ t2) dst =
  classify_groups t2 (fst (classify_groups t1 dst)).
Proof.
  revert dst. induction t1 as [|[k g] t1 IH]; intros dst Hne; [reflexivity|].
  simpl. destruct g as [|first others].
  - exfalso. now apply (Hne k []); [left|].
  - apply IH. intros k' g' Hin. apply (Hne k' g'). now right.
Qed.

(** X3: the last level on a table with an empty group. A call at
    iteration 2 classifies the groups before the first empty group and is
    then left by [IndexError]; the groups after it are not classified, and
    what was entered in the destination table stays there. *)
Theorem empty_group_at_level_2 (n : nat) (t1 t2 : Dict.t pykey) (k : pykey)
    (dst : Dict.t string) :
  (forall k' g, In (k', g) t1 -> g <> []) ->
  resolver (S n) (t1 ++ (k, []) :: t2) dst 2 =
  Some (mkResult (t1 ++ (k, []) :: t2) (fst (classify_groups t1 dst))
                 [Enter 2 (t1 ++ (k, []) :: t2)]
                 (Raised (IndexError "list index out of range"))).
Proof.
  intros Hne. rewrite find_duplicate_files_2.
  now rewrite (classify_groups_app t1 _ dst Hne).
Qed.

(** X4: the last branch of [get_hash] is reached when the resolver is
    called at another iteration than 0, 1 and 2 on a table with a group to
    rehash whose first file can be read: the files that are alone in their
    group are classified, the source table is emptied, the first pending
    file is opened and the call is left by the exception of [get_hash]. *)
Theorem invalid_iteration_raises (n : nat) (src : Dict.t pykey)
    (dst : Dict.t string) (i : Z) (f : file) (l : list file) (c : list byte) :
  i <> 0 -> i <> 1 -> i <> 2 ->
  Dict.files (pending src) = f :: l ->
  fs f = Some c ->
  resolver (S n) src dst i =
  Some (mkResult [] (classify_unique (singletons src) dst)
                 [Enter i src; Hash f i]
                 (Raised (Exception "Error encountered in get_hash()"))).
Proof.
  intros H0 H1 H2 Hp Hc. rewrite find_duplicate_files_S.
  destruct (Z.eqb_spec i 2); [contradiction|]. cbv zeta.
  destruct (pending src) as [|kg p] eqn:E; [discriminate|].
  cbn [Dict.is_empty]. rewrite Hp. cbn [rehash_and_add_to_table].
  rewrite Hc. unfold get_hash.
  destruct (Z.eqb_spec i 0); [contradiction|].
  destruct (Z.eqb_spec i 1); [contradiction|]. reflexivity.
Qed.

End Calls.

(** ** What is entered in the destination table *)

Lemma get_append_inv (label label' : string) f f' (d : Dict.t string) :
  In f (Dict.get label (Dict.append label' f' d)) ->
  In f (Dict.get label d) \/ (label = label' /\ f = f').
Proof.
  unfold Dict.append. rewrite get_extend.
  destruct (key_eqb label label') eqn:E; [|now left].
  apply key_eqb_eq in E. intros Hin. apply in_app_iff in Hin.
  destruct Hin as [Hin|[<-|[]]]; [now left | now right].
Qed.

Lemma classify_unique_inv label l f d :
  In f (Dict.get label (classify_unique l d)) ->
  In f (Dict.get label d) \/ (In f l /\ label = extension_label f).
Proof.
  revert d. induction l as [|x l IH]; intros d Hin; [now left|].
  simpl in Hin. apply IH in Hin. destruct Hin as [Hin|[Hin E]].
  - apply get_append_inv in Hin. destruct Hin as [Hin|[-> ->]]; [now left|].
    right. split; [now left | reflexivity].
  - right. split; [now right | assumption].
Qed.

Lemma classify_duplicate_inv label l f d :
  In f (Dict.get label (classify_duplicate l d)) ->
  In f (Dict.get label d) \/ (In f l /\ label = "duplicate-files").
Proof.
  revert d. induction l as [|x l IH]; intros d Hin; [now left|].
  simpl in Hin. apply IH in Hin. destruct Hin as [Hin|[Hin E]].
  - apply get_append_inv in Hin. destruct Hin as [Hin|[-> ->]]; [now left|].
    right. split; [now left | reflexivity].
  - right. split; [now right | assumption].
Qed.

(** What the last level enters: the first member of a group under its
    extension, the other members as duplicates. *)
Lemma classify_groups_inv items dst label f :
  In f (Dict.get label (fst (classify_groups items dst))) ->
  In f (Dict.get label dst)
  \/ (exists k others, In (k, f :: others) items /\ label = extension_label f)
  \/ (exists k first others,
        In (k, first :: others) items /\ In f others
        /\ label = "duplicate-files").
Proof.
  revert dst. induction items as [|[k g] items IH]; intros dst Hin; [now left|].
  simpl in Hin. destruct g as [|first others]; [now left|].
  fold (classify_duplicate others (add_unique_file_to_table first dst)) in Hin.
  apply IH in Hin. destruct Hin as [Hin|[Hin|Hin]].
  - apply classify_duplicate_inv in Hin. destruct Hin as [Hin|[Hin ->]].
    + apply get_append_inv in Hin. destruct Hin as [Hin|[-> ->]]; [now left|].
      right; left. exists k, others. split; [now left | reflexivity].
    + right; right. exists k, first, others. repeat split; auto. now left.
  - destruct Hin as (k' & o' & Hin & E). right; left.
    exists k', o'. split; [now right | assumption].
  - destruct Hin as (k' & f' & o' & Hin & Hf & E). right; right.
    exists k', f', o'. repeat split; auto. now right.
Qed.

Lemma group_files (t : Dict.t pykey) k g f :
  In (k, g) t -> In f g -> In f (Dict.files t).
Proof. intros Hkg Hf. apply In_files. eauto. Qed.

Lemma NoDup_group (t : Dict.t pykey) k g :
  NoDup (Dict.files t) -> In (k, g) t -> NoDup g.
Proof.
  induction t as [|[k0 g0] t IH]; intros Hnd Hin; [contradiction|].
  rewrite files_cons in Hnd. destruct Hin as [E|Hin].
  - inversion E; subst. now apply NoDup_app_remove_r in Hnd.
  - apply IH; [|assumption]. now apply NoDup_app_remove_l in Hnd.
Qed.

Section Buckets.
Variable sha256_hexdigest : list byte -> string.
Variable fs : file -> option (list byte).

Local Abbreviation rehash := (rehash_and_add_to_table sha256_hexdigest fs).
Local Abbreviation resolver := (find_duplicate_files sha256_hexdigest fs).
Local Abbreviation table1 := (level1 sha256_hexdigest fs).
Local Abbreviation table2 := (level2 sha256_hexdigest fs).
Local Abbreviation whole_digest := (full_digest sha256_hexdigest fs).

(** X5: the labels of the destination table. Whatever the iteration and
    however the call ends, a file that the call has added to a bucket is a
    file of the source table, and the bucket is the one of the file's
    extension or ["duplicate-files"]; the entries that were there before
    are the only other ones. *)
Theorem only_own_label_or_duplicate (fuel : nat) (src : Dict.t pykey)
    (dst : Dict.t string) (i : Z) (r : result) (label : string) (f : file) :
  resolver fuel src dst i = Some r ->
  In f (Dict.get label (destination r)) ->
  In f (Dict.get label dst)
  \/ (In f (Dict.files src)
      /\ (label = extension_label f \/ label = "duplicate-files")).
Proof.
  revert src dst i r.
  induction fuel as [|fuel IH]; intros src dst i r Hrun Hin; [discriminate|].
  rewrite find_duplicate_files_S in Hrun. destruct (i =? 2).
  - inversion Hrun; subst r; simpl in Hin.
    apply classify_groups_inv in Hin.
    destruct Hin as [Hin|[(k & o & Hkg & ->)|(k & x & o & Hkg & Hf & ->)]].
    + now left.
    + right. split; [|now left]. apply (group_files src k (f :: o)); auto. now left.
    + right. split; [|now right]. apply (group_files src k (x :: o)); auto. now right.
  - cbv zeta in Hrun.
    assert (H0 : forall f, In f (Dict.get label (classify_unique (singletons src) dst)) ->
                 In f (Dict.get label dst)
                 \/ (In f (Dict.files src) /\ label = extension_label f)).
    { intros x Hx. apply classify_unique_inv in Hx.
      destruct Hx as [Hx|[Hx E]]; [now left|]. right. split; [|assumption].
      apply In_singletons in Hx. destruct Hx as [k Hk].
      apply (group_files src k [x]); auto. now left. }
    destruct (Dict.is_empty (pending src)).
    { inversion Hrun; subst r; simpl in Hin.
      destruct (H0 f Hin) as [?|[? ?]]; auto. }
    destruct (rehash _ _ _) as [[t evs] [|e]] eqn:Hre.
    + destruct (resolver fuel t _ (i + 1)) as [r'|] eqn:Hrec; [|discriminate].
      inversion Hrun; subst r; simpl in Hin.
      destruct (IH _ _ _ _ Hrec Hin) as [Hd|[Hf Hl]].
      * destruct (H0 f Hd) as [?|[? ?]]; auto.
      * right. split; [|assumption].
        apply rehash_files in Hre. apply (Permutation_in _ Hre) in Hf.
        apply ambiguous_incl, In_pending, Hf.
    + inversion Hrun; subst r; simpl in Hin.
      destruct (H0 f Hin) as [?|[? ?]]; auto.
Qed.

(** The files of the table of level 2 are files of the input. *)
Lemma level2_input src f : In f (Dict.files (table2 src)) -> In f (ambiguous src).
Proof.
  intros Hf. apply (level1_files sha256_hexdigest fs).
  apply ambiguous_incl. now apply (level2_files sha256_hexdigest fs).
Qed.

(** X6: no false duplicate. In a run from iteration 0, a file found under
    ["duplicate-files"] was there before, or has that label as the label
    of its own extension, or follows in its group of level 2 a survivor
    that is classified by its extension and whose contents have the same
    SHA-256 digest; when the input lists no file twice the survivor is
    another file. *)
Theorem duplicate_has_survivor (fuel : nat) (src : Dict.t pykey)
    (dst : Dict.t string) (r : result) (y : file) :
  resolver fuel src dst 0 = Some r ->
  In y (Dict.get "duplicate-files" (destination r)) ->
  In y (Dict.get "duplicate-files" dst)
  \/ extension_label y = "duplicate-files"
  \/ exists first h,
       In first (Dict.get (extension_label first) (destination r))
       /\ whole_digest first = Some h /\ whole_digest y = Some h
       /\ In first (Dict.files src)
       /\ (NoDup (Dict.files src) -> first <> y).
Proof.
  intros Hrun Hin. pose proof Hrun as Hcases.
  apply run_cases in Hcases. cbv zeta in Hcases.
  assert (H1 : forall l d, In y (Dict.get "duplicate-files" (classify_unique l d)) ->
                 In y (Dict.get "duplicate-files" d)
                 \/ extension_label y = "duplicate-files").
  { intros l d Hy. apply classify_unique_inv in Hy.
    destruct Hy as [Hy|[_ E]]; [now left | now right]. }
  destruct Hcases as [(_ & ->) | [(_ & _ & t & evs & -> & _)
                     | [(_ & _ & _ & ->) | (_ & Hr & _ & ->)]]]; simpl in Hin.
  - destruct (H1 _ _ Hin); auto.
  - destruct (H1 _ _ Hin); auto.
  - destruct (H1 _ _ Hin) as [Hy|Hy]; [|auto]. destruct (H1 _ _ Hy); auto.
  - apply classify_groups_inv in Hin.
    destruct Hin as [Hy|[(k & o & _ & E)|(k & x & o & Hkg & Hyo & _)]].
    + destruct (H1 _ _ Hy) as [Hy'|Hy']; [|auto]. destruct (H1 _ _ Hy'); auto.
    + right; left. now symmetry.
    + right; right.
      assert (Hread : forall f, In f (ambiguous src) -> fs f <> None).
      { intros f Hf. now apply Hr, In_pending. }
      destruct (level2_keys sha256_hexdigest fs src k (x :: o) x Hread Hkg
                  (or_introl eq_refl)) as (cx & Hcx & Ek).
      destruct (level2_keys sha256_hexdigest fs src k (x :: o) y Hread Hkg
                  (or_intror Hyo)) as (cy & Hcy & Ek').
      exists x, (sha256_hexdigest cx). split; [|split; [|split; [|split]]].
      * simpl. apply (terminal_step sha256_hexdigest fs src _ k x o Hkg).
      * unfold full_digest. now rewrite Hcx.
      * unfold full_digest. rewrite Hcy. simpl. congruence.
      * apply ambiguous_incl, level2_input.
        apply (group_files _ k (x :: o)); auto. now left.
      * intros Hnd ->.
        pose proof (NoDup_level2 sha256_hexdigest fs src Hnd) as Hnd2.
        apply (NoDup_group _ k (y :: o)) in Hnd2; [|assumption].
        inversion Hnd2; contradiction.
Qed.

(** X7: no unique file is lost. In a run from iteration 0 that returns, a
    file of the input whose contents have a SHA-256 digest that no other
    readable file of the input has is classified under the label of its
    extension. *)
Theorem unique_contents_classified (fuel : nat) (src : Dict.t pykey)
    (dst : Dict.t string) (r : result) (f : file) :
  resolver fuel src dst 0 = Some r ->
  ending r = Returned ->
  In f (Dict.files src) ->
  (forall g h, In g (Dict.files src) ->
     whole_digest g = Some h -> whole_digest f = Some h -> g = f) ->
  In f (Dict.get (extension_label f) (destination r)).
Proof.
  intros Hrun Hend Hf Huniq.
  apply (Permutation_in _ (files_split src)) in Hf.
  apply in_app_iff in Hf. destruct Hf as [Hs|Ha].
  { now apply (run_keeps_singletons sha256_hexdigest fs fuel src dst r f). }
  destruct (run_level1 sha256_hexdigest fs fuel src dst r f Hrun Hend Ha)
    as [Hent Hread].
  destruct (run_enters sha256_hexdigest fs fuel src dst r 1 _ Hrun Hent)
    as [[E _] | [(_ & _ & _ & Hd) | (E & _)]]; [discriminate | | discriminate].
  assert (H1 : In f (Dict.files (table1 src)))
    by now apply (level1_files sha256_hexdigest fs).
  apply (Permutation_in _ (files_split (table1 src))) in H1.
  apply in_app_iff in H1. destruct H1 as [Hs1|Ha1].
  { destruct Hd as [-> | ->].
    - now apply classify_unique_In.
    - now apply classify_groups_mono, classify_unique_In. }
  destruct (run_three_levels sha256_hexdigest fs fuel src dst r f Hrun Hend Ha1)
    as (_ & _ & ->).
  assert (H2 : In f (Dict.files (table2 src)))
    by now apply (level2_files sha256_hexdigest fs).
  apply In_files in H2. destruct H2 as (k & g & Hkg & Hfg).
  destruct g as [|first others]; [contradiction|].
  destruct (level2_keys sha256_hexdigest fs src k (first :: others) first
              Hread Hkg (or_introl eq_refl)) as (c1 & Hc1 & Ek).
  destruct (level2_keys sha256_hexdigest fs src k (first :: others) f
              Hread Hkg Hfg) as (c & Hc & Ek').
  assert (E : first = f).
  { apply (Huniq first (sha256_hexdigest c)).
    - apply ambiguous_incl, level2_input.
      apply (group_files _ k (first :: others)); auto. now left.
    - unfold full_digest. rewrite Hc1. simpl. congruence.
    - unfold full_digest. now rewrite Hc. }
  subst first.
  apply (terminal_step sha256_hexdigest fs src _ k f others Hkg).
Qed.


End Buckets.

(** ** One pass of rehashing *)

Section Pass.
Variable sha256_hexdigest : list byte -> string.
Variable fs : file -> option (list byte).

Local Abbreviation rehash := (rehash_and_add_to_table sha256_hexdigest fs).
Local Abbreviation key_at := (digest_key sha256_hexdigest fs).

(** X9: where a pass stops. At iterations 0 and 1 a pass over a list
    whose first unreadable file is [f] files the files before [f] under
    their digests, opens [f], and is left by ["Unable to read current
    file"]; the files after [f] are not opened and not filed. *)
Theorem pass_stops_at_first_unreadable (l1 l2 : list file) (f : file)
    (d : Dict.t pykey) (i : Z) :
  i = 0 \/ i = 1 ->
  (forall x, In x l1 -> fs x <> None) ->
  fs f = None ->
  rehash (l1 ++ f :: l2) d i =
  (regroup (key_at i) l1 d, map (fun x => Hash x i) (l1 ++ [f]),
   Raised (Exception "Unable to read current file")).
Proof.
  intros Hi Hl1 Hf. rewrite rehash_app.
  rewrite rehash_ok
    by (intros x Hx; apply readable_digest; [assumption | now apply Hl1]).
  cbn [rehash_and_add_to_table]. rewrite Hf.
  now rewrite map_app.
Qed.

Lemma keys_regroup_prefix key l (d : Dict.t pykey) :
  exists new, Dict.keys (regroup key l d) = Dict.keys d ++ new.
Proof.
  revert d. induction l as [|f l IH]; intros d.
  - exists []. now rewrite app_nil_r.
  - rewrite regroup_cons. destruct (IH (Dict.append (KStr (key f)) f d)) as [new ->].
    unfold Dict.append. rewrite keys_extend.
    destruct (existsb _ _); [now exists new|].
    exists (KStr (key f) :: new). now rewrite <- app_assoc.
Qed.

(** X10: what a pass that returns leaves in its table. Every file of the
    list could be hashed; the group of each key is the group it was,
    followed by the files of the list with that digest in the order of the
    list; the keys that were there keep their places and the new keys
    follow them. *)
Theorem pass_appends_in_order (l : list file) (d d' : Dict.t pykey) (i : Z)
    (evs : list event) :
  rehash l d i = (d', evs, Returned) ->
  (forall f, In f l -> exists h, digest sha256_hexdigest fs i f = Some h)
  /\ (forall k, Dict.get k d' =
                Dict.get k d ++ filter (fun f => key_eqb k (KStr (key_at i f))) l)
  /\ (exists new, Dict.keys d' = Dict.keys d ++ new)
  /\ evs = map (fun f => Hash f i) l.
Proof.
  intros Hre.
  assert (Hall : forall f, In f l -> digest sha256_hexdigest fs i f <> None)
    by (intros f Hf; eapply rehash_returned; eassumption).
  rewrite rehash_ok in Hre by assumption. inversion Hre; subst d' evs.
  split; [|split; [|split]].
  - intros f Hf. specialize (Hall f Hf).
    destruct (digest sha256_hexdigest fs i f) as [h|]; [eauto | congruence].
  - intros k. apply get_regroup.
  - apply keys_regroup_prefix.
  - reflexivity.
Qed.

(** X11: a file of at most [byte_chunk] bytes has the same digest at both
    iterations: the second reading hashes the same bytes again. *)
Theorem small_file_same_digest (c : list byte) :
  Z.of_nat (List.length c) <= byte_chunk ->
  get_hash sha256_hexdigest c 0 = get_hash sha256_hexdigest c 1.
Proof.
  intros Hlen. unfold get_hash. cbn [Z.eqb]. cbv zeta.
  rewrite firstn_all2; [reflexivity|]. lia.
Qed.

End Pass.

(** ** Regrouping what is already grouped *)






Section SmallFiles.
Variable sha256_hexdigest : list byte -> string.
Variable fs : file -> option (list byte).

Local Abbreviation resolver := (find_duplicate_files sha256_hexdigest fs).
Local Abbreviation table1 := (level1 sha256_hexdigest fs).
Local Abbreviation table2 := (level2 sha256_hexdigest fs).
Local Abbreviation key_at := (digest_key sha256_hexdigest fs).



End SmallFiles.

(** ** Labels of unusual names *)

Lemma occurs_app c s s' : occurs c (s ++ s') = occurs c s || occurs c s'.
Proof.
  induction s as [|a s IH]; simpl; [reflexivity|].
  now rewrite IH, orb_assoc.
Qed.

Lemma is_hidden_file_app s s' :
  s <> EmptyString -> is_hidden_file (s ++ s')%string = is_hidden_file s.
Proof. destruct s as [|a s]; [congruence | reflexivity]. Qed.

(** The label of the name of a visible directory entry. *)
Lemma extension_label_visible f :
  is_hidden_file f = false -> occurs "/"%char f = false ->
  extension_label f = label_of_text_after_final_dot f.
Proof.
  intros Hh Hs. unfold extension_label, label_of_text_after_final_dot.
  rewrite (splitext_visible f Hh Hs).
  destruct (text_after_final_dot f) as [ext|]; [|reflexivity].
  cbn [String.eqb]. now rewrite slice_from_1.
Qed.

(** X13: a name that ends with a dot. For a visible name without ['/']
    whose last character is the dot, [os.path.splitext] returns the
    extension ["."], which is not empty, so the file is appended to the
    bucket ["-files"] and not to ["no-extension-files"]. *)
Theorem trailing_dot_label (stem : string) (dst : Dict.t string) :
  stem <> EmptyString ->
  is_hidden_file stem = false ->
  occurs "/"%char stem = false ->
  snd (splitext (stem ++ ".")) = "."
  /\ add_unique_file_to_table (stem ++ ".")%string dst =
     Dict.append "-files" (stem ++ ".")%string dst.
Proof.
  intros Hne Hh Hs.
  assert (Hh' : is_hidden_file (stem ++ ".")%string = false)
    by now rewrite is_hidden_file_app.
  assert (Hs' : occurs "/"%char (stem ++ ".") = false)
    by (rewrite occurs_app, Hs; reflexivity).
  assert (Ht : text_after_final_dot (stem ++ ".") = Some EmptyString)
    by now apply text_after_final_dot_present.
  split.
  - now rewrite (splitext_visible _ Hh' Hs'), Ht.
  - unfold add_unique_file_to_table.
    rewrite (extension_label_visible _ Hh' Hs').
    unfold label_of_text_after_final_dot. now rewrite Ht.
Qed.

(** X14: a dot file. For a name made of a dot followed by text without
    dot and without ['/'], [os.path.splitext] finds no extension (the
    leading dot does not start one), so [add_unique_file_to_table]
    appends the file to ["no-extension-files"]. *)
Theorem dot_file_label (s : string) (dst : Dict.t string) :
  occurs "."%char s = false ->
  occurs "/"%char s = false ->
  splitext (String "."%char s) = (String "."%char s, EmptyString)
  /\ add_unique_file_to_table (String "."%char s) dst =
     Dict.append "no-extension-files" (String "."%char s) dst.
Proof.
  intros Hd Hs.
  assert (E : splitext (String "."%char s) = (String "."%char s, EmptyString)).
  { unfold splitext.
    assert (Hsep : rfind "/"%char (String "."%char s) = -1)
      by (apply rfind_absent; simpl; exact Hs).
    assert (Hdot : rfind "."%char (String "."%char s) = 0)
      by (simpl; now rewrite (rfind_absent _ _ Hd)).
    rewrite Hsep, Hdot. reflexivity. }
  split; [exact E|].
  unfold add_unique_file_to_table, extension_label. now rewrite E.
Qed.

(** X15: a unique file is filed with the duplicates when its extension is
    ["duplicate"]. For a visible name [stem.duplicate] the label of the
    extension is ["duplicate-files"], the label reserved for duplicates; in
    a run from iteration 0 such a file, alone in its size group, ends in
    that bucket. *)
Theorem duplicate_extension_collides (sha256_hexdigest : list byte -> string)
    (fs : file -> option (list byte)) (fuel : nat) (src : Dict.t pykey)
    (dst : Dict.t string) (r : result) (stem : string) (k : pykey) :
  stem <> EmptyString ->
  is_hidden_file stem = false ->
  occurs "/"%char stem = false ->
  find_duplicate_files sha256_hexdigest fs fuel src dst 0 = Some r ->
  In (k, [(stem ++ ".duplicate")%string]) src ->
  extension_label (stem ++ ".duplicate")%string = "duplicate-files"
  /\ In (stem ++ ".duplicate")%string
        (Dict.get "duplicate-files" (destination r)).
Proof.
  intros Hne Hh Hs Hrun Hin.
  assert (E : extension_label (stem ++ ".duplicate")%string = "duplicate-files").
  { rewrite extension_label_visible.
    - unfold label_of_text_after_final_dot.
      now rewrite (text_after_final_dot_present stem "duplicate" eq_refl).
    - now rewrite is_hidden_file_app.
    - rewrite occurs_app, Hs. reflexivity. }
  split; [exact E|]. rewrite <- E.
  apply (run_keeps_singletons sha256_hexdigest fs fuel src dst r _ Hrun).
  apply In_singletons. now exists k.
Qed.

(** * Scanning the directory *)

Lemma group_by_cons key f l d :
  group_by key (f :: l) d = group_by key l (Dict.append (key f) f d).
Proof. reflexivity. Qed.

Lemma files_group_by key l d :
  Permutation (Dict.files (group_by key l d)) (Dict.files d ++ l).
Proof.
  revert d. induction l as [|f l IH]; intros d.
  - simpl. now rewrite app_nil_r.
  - rewrite group_by_cons, IH. unfold Dict.append.
    rewrite files_extend, <- app_assoc. reflexivity.
Qed.

Lemma get_group_by key l d k :
  Dict.get k (group_by key l d) =
  Dict.get k d ++ filter (fun f => key_eqb k (key f)) l.
Proof.
  revert d. induction l as [|f l IH]; intros d.
  - simpl. now rewrite app_nil_r.
  - rewrite group_by_cons, IH. unfold Dict.append. rewrite get_extend.
    cbn [filter]. destruct (key_eqb k (key f)); [|reflexivity].
    now rewrite <- app_assoc.
Qed.

Lemma NoDup_keys_group_by key l d :
  NoDup (Dict.keys d) -> NoDup (Dict.keys (group_by key l d)).
Proof.
  revert d. induction l as [|f l IH]; intros d Hd; [assumption|].
  rewrite group_by_cons. apply IH. now apply NoDup_keys_extend.
Qed.

Lemma keys_group_by key l d k :
  In k (Dict.keys (group_by key l d)) ->
  In k (Dict.keys d) \/ exists f, In f l /\ k = key f.
Proof.
  revert d. induction l as [|f l IH]; intros d Hk; [now left|].
  rewrite group_by_cons in Hk. apply IH in Hk.
  destruct Hk as [Hk|(f' & Hf' & E)].
  - unfold Dict.append in Hk. rewrite keys_extend in Hk.
    destruct (existsb (key_eqb (key f)) (Dict.keys d)); [now left|].
    apply in_app_iff in Hk. destruct Hk as [Hk|[<-|[]]]; [now left|].
    right. exists f. split; [now left | reflexivity].
  - right. exists f'. split; [now right | assumption].
Qed.

(** The groups of a table built by grouping a list. *)
Lemma group_by_In key l k g :
  In (k, g) (group_by key l []) ->
  g = filter (fun f => key_eqb k (key f)) l /\ g <> [].
Proof.
  intros Hin.
  assert (Hnd : NoDup (Dict.keys (group_by key l [])))
    by (apply NoDup_keys_group_by; constructor).
  pose proof (get_In _ _ _ Hnd Hin) as Hg. rewrite get_group_by in Hg.
  cbn [Dict.get app] in Hg.
  assert (Hk : In k (Dict.keys (group_by key l []))).
  { change k with (fst (k, g)). now apply in_map. }
  apply keys_group_by in Hk. destruct Hk as [[]|(f & Hf & E)].
  split; [now symmetry|].
  intros ->. assert (Hin' : In f (filter (fun f => key_eqb k (key f)) l)).
  { apply filter_In. split; [assumption|]. subst k. apply key_eqb_refl. }
  now rewrite Hg in Hin'.
Qed.

Section Scan.
Variable fs : file -> option (list byte).
Variable os_path_isdir : string -> bool.
Variable os_path_getsize : file -> option Z.

Local Abbreviation scan := (group_by_size os_path_isdir os_path_getsize).
Local Abbreviation kept := (eligible os_path_isdir).
Local Abbreviation key_of := (size_key os_path_getsize).

(** The loop of [main] when every size can be obtained. *)
Lemma group_by_size_ok l d :
  (forall f, In f l -> kept f = true -> os_path_getsize f <> None) ->
  scan l d = (group_by key_of (filter kept l) d, Returned).
Proof.
  revert d. induction l as [|f l IH]; intros d Hl; [reflexivity|].
  cbn [group_by_size filter]. unfold eligible, is_directory in *.
  destruct (negb (is_hidden_file f) && negb (os_path_isdir f)) eqn:E.
  - pose proof (Hl f (or_introl eq_refl) E) as Hf.
    rewrite group_by_cons. unfold size_key at 2.
    destruct (os_path_getsize f) as [n|]; [|congruence].
    apply IH. intros x Hx. apply Hl. now right.
  - apply IH. intros x Hx. apply Hl. now right.
Qed.

Lemma group_by_size_returned l d t :
  scan l d = (t, Returned) ->
  forall f, In f l -> kept f = true -> os_path_getsize f <> None.
Proof.
  revert d. induction l as [|f l IH]; intros d Hs x Hx Hk; [contradiction|].
  cbn [group_by_size] in Hs. unfold eligible, is_directory in *.
  destruct Hx as [<-|Hx].
  - rewrite Hk in Hs. destruct (os_path_getsize f); [discriminate | discriminate].
  - destruct (negb (is_hidden_file f) && negb (os_path_isdir f)).
    + destruct (os_path_getsize f); [|discriminate]. now apply (IH _ Hs).
    + now apply (IH _ Hs).
Qed.

Lemma NoDup_filter (p : file -> bool) l : NoDup l -> NoDup (filter p l).
Proof.
  induction l as [|a l IH]; intros Hnd; [constructor|].
  inversion Hnd as [|? ? Ha Hnd']; subst. simpl.
  destruct (p a); [|now apply IH].
  constructor; [|now apply IH]. intros Hin. apply Ha.
  now apply filter_In in Hin.
Qed.

(** X16: the table that [main] builds. When the loop of lines 181-187
    ends without error over a listing without repeated names, the table
    has one group for each size, no empty group and no file twice; its
    files are the entries of the listing that are neither hidden nor
    directories; the group of a size holds the files of that size in the
    order of the listing; and when a readable file has the size of its
    contents the table is keyed by size as the resolver expects. *)
Theorem scanned_table_is_size_grouping (l : list file) (t : Dict.t pykey) :
  NoDup l ->
  scan l [] = (t, Returned) ->
  NoDup (Dict.keys t)
  /\ NoDup (Dict.files t)
  /\ (forall k g, In (k, g) t -> g <> [])
  /\ (forall f, In f (Dict.files t) <->
        In f l /\ is_hidden_file f = false /\ os_path_isdir f = false)
  /\ (forall k g, In (k, g) t ->
        exists n, k = KInt n
          /\ g = filter (fun f => match os_path_getsize f with
                                  | Some m => Z.eqb n m
                                  | None => false
                                  end) (filter kept l))
  /\ ((forall f c, fs f = Some c ->
         os_path_getsize f = Some (Z.of_nat (List.length c))) ->
      size_keyed fs t).
Proof.
  intros Hnd Hs.
  pose proof (group_by_size_returned _ _ _ Hs) as Hsizes.
  rewrite (group_by_size_ok _ _ Hsizes) in Hs. inversion Hs as [Ht]. clear Hs.
  pose proof (files_group_by key_of (filter kept l) []) as Hperm.
  cbn [Dict.files map concat app] in Hperm.
  assert (Hgroup : forall k g, In (k, g) (group_by key_of (filter kept l) []) ->
             exists n, k = KInt n
               /\ g = filter (fun f => match os_path_getsize f with
                                       | Some m => Z.eqb n m
                                       | None => false
                                       end) (filter kept l)).
  { intros k g Hin. pose proof Hin as Hin'.
    apply group_by_In in Hin'. destruct Hin' as [Hg _].
    assert (Hk : In k (Dict.keys (group_by key_of (filter kept l) []))).
    { change k with (fst (k, g)). now apply in_map. }
    apply keys_group_by in Hk. destruct Hk as [[]|(f & Hf & ->)].
    apply filter_In in Hf. destruct Hf as [Hf Hkept].
    pose proof (Hsizes f Hf Hkept) as Hsz. unfold size_key in *.
    destruct (os_path_getsize f) as [n|] eqn:En; [|congruence].
    exists n. split; [reflexivity|]. rewrite Hg.
    apply filter_ext_in. intros x Hx. apply filter_In in Hx.
    destruct Hx as [Hx Hxk]. pose proof (Hsizes x Hx Hxk) as Hxs.
    destruct (os_path_getsize x) as [m|]; [reflexivity | congruence]. }
  split; [apply NoDup_keys_group_by; constructor|].
  split; [|split; [|split; [|split]]].
  - apply (Permutation_NoDup (Permutation_sym Hperm)). now apply NoDup_filter.
  - intros k g Hin. now apply group_by_In in Hin.
  - intros f. split.
    + intros Hf. apply (Permutation_in _ Hperm) in Hf.
      apply filter_In in Hf. destruct Hf as [Hf Hk]. split; [assumption|].
      unfold eligible, is_directory in Hk. apply andb_true_iff in Hk.
      destruct Hk as [Hh Hd]. apply negb_true_iff in Hh, Hd. now split.
    + intros (Hf & Hh & Hd). apply (Permutation_in _ (Permutation_sym Hperm)).
      apply filter_In. split; [assumption|].
      unfold eligible, is_directory. now rewrite Hh, Hd.
  - exact Hgroup.
  - intros Hcons k g f c Hin Hf Hc.
    destruct (Hgroup k g Hin) as (n & -> & Hg). rewrite Hg in Hf.
    apply filter_In in Hf. destruct Hf as [_ Hn].
    rewrite (Hcons f c Hc) in Hn. apply Z.eqb_eq in Hn. now subst n.
Qed.

(** X17: where the scan stops. When the size of an entry that is neither
    hidden nor a directory cannot be obtained, and the sizes of the
    entries before it can, the loop files the entries before it and is
    left by ["Unable to obtain the current file's size"]; the entries
    after it are not looked at. *)
Theorem scan_stops_at_first_unknown_size (l1 l2 : list file) (f : file)
    (d : Dict.t pykey) :
  (forall x, In x l1 -> kept x = true -> os_path_getsize x <> None) ->
  kept f = true ->
  os_path_getsize f = None ->
  scan (l1 ++ f :: l2) d =
  (group_by key_of (filter kept l1) d,
   Raised (Exception "Unable to obtain the current file's size")).
Proof.
  revert d. induction l1 as [|x l1 IH]; intros d Hl1 Hk Hf.
  - cbn [app group_by_size filter group_by fold_left].
    unfold eligible in Hk. now rewrite Hk, Hf.
  - cbn [app group_by_size filter].
    assert (Hl1' : forall y, In y l1 -> kept y = true -> os_path_getsize y <> None)
      by (intros y Hy; apply Hl1; now right).
    destruct (kept x) eqn:Ex; unfold eligible in Ex; rewrite Ex.
    + pose proof (Hl1 x (or_introl eq_refl) Ex) as Hx.
      rewrite group_by_cons. unfold size_key at 2.
      destruct (os_path_getsize x) as [n|]; [|congruence].
      now apply IH.
    + now apply IH.
Qed.

End Scan.

(** * Printing the tree *)

Lemma insert_sorted_perm x l : Permutation (insert_sorted x l) (x :: l).
Proof.
  induction l as [|y l IH]; simpl; [reflexivity|].
  destruct (String.leb x y); [reflexivity|].
  rewrite IH. apply perm_swap.
Qed.

Lemma sorted_perm l : Permutation (sorted l) l.
Proof.
  induction l as [|x l IH]; simpl; [constructor|].
  rewrite insert_sorted_perm. now constructor.
Qed.

Lemma insert_sorted_HdRel a x l :
  String.leb a x = true ->
  HdRel (fun s s' => String.leb s s' = true) a l ->
  HdRel (fun s s' => String.leb s s' = true) a (insert_sorted x l).
Proof.
  intros Hax Hl. destruct l as [|y l]; simpl; [now constructor|].
  destruct (String.leb x y); constructor; [assumption|].
  now inversion Hl.
Qed.

Lemma insert_sorted_Sorted x l :
  Sorted (fun s s' => String.leb s s' = true) l ->
  Sorted (fun s s' => String.leb s s' = true) (insert_sorted x l).
Proof.
  induction 1 as [|y l Hs IH Hhd]; simpl; [repeat constructor|].
  destruct (String.leb x y) eqn:E.
  - constructor; [now constructor|]. now constructor.
  - constructor; [assumption|]. apply insert_sorted_HdRel; [|assumption].
    destruct (String.leb_total x y) as [H|H]; [congruence | assumption].
Qed.

Lemma sorted_Sorted l : Sorted (fun s s' => String.leb s s' = true) (sorted l).
Proof.
  induction l as [|x l IH]; simpl; [constructor|].
  now apply insert_sorted_Sorted.
Qed.

Lemma Permutation_flat_map_pointwise (A : Type) (f g : A -> list file) l :
  (forall x, In x l -> Permutation (f x) (g x)) ->
  Permutation (flat_map f l) (flat_map g l).
Proof.
  induction l as [|a l IH]; intros Hfg; [constructor|]. simpl.
  apply Permutation_app; [apply Hfg; now left|].
  apply IH. intros x Hx. apply Hfg. now right.
Qed.

Lemma flat_map_same (A B : Type) (f g : A -> list B) l :
  (forall x, In x l -> f x = g x) -> flat_map f l = flat_map g l.
Proof.
  induction l as [|a l IH]; intros Hfg; [reflexivity|]. simpl.
  rewrite (Hfg a (or_introl eq_refl)). f_equal.
  apply IH. intros x Hx. apply Hfg. now right.
Qed.

(** Reading every key of a table with distinct keys gives its files. *)
Lemma flat_map_get (d : Dict.t string) :
  NoDup (Dict.keys d) ->
  flat_map (fun k => Dict.get k d) (Dict.keys d) = Dict.files d.
Proof.
  induction d as [|[k g] d IH]; intros Hnd; [reflexivity|].
  inversion Hnd as [|? ? Hk Hnd']; subst.
  cbn [Dict.keys map fst flat_map]. rewrite files_cons.
  cbn [Dict.get]. rewrite key_eqb_refl. f_equal.
  rewrite <- (IH Hnd'). apply flat_map_same. intros k' Hk'.
  destruct (key_eqb k' k) eqn:E; [|reflexivity].
  apply key_eqb_eq in E. subst k'. contradiction.
Qed.

Lemma shown_files_app l l' :
  shown_files (l ++ l') = shown_files l ++ shown_files l'.
Proof. apply flat_map_app. Qed.

Lemma shown_directories_app l l' :
  shown_directories (l ++ l') = shown_directories l ++ shown_directories l'.
Proof. apply flat_map_app. Qed.

Lemma shown_files_cons a l :
  shown_files (a :: l)
  = match a with FileLine _ _ f => [f] | _ => [] end ++ shown_files l.
Proof. reflexivity. Qed.

Lemma shown_directories_cons a l :
  shown_directories (a :: l)
  = match a with DirectoryLine _ d => [d] | _ => [] end ++ shown_directories l.
Proof. reflexivity. Qed.

(** The line of a file is a file line for that file. *)
Lemma file_line_kind files last_directory f :
  exists bar corner, file_line files last_directory f = FileLine bar corner f.
Proof.
  unfold file_line.
  destruct (List.length files =? 1)%nat; [eauto|].
  destruct (String.eqb f (last files "") && last_directory); [eauto|].
  destruct (String.eqb f (last files "")); [eauto|].
  destruct last_directory; eauto.
Qed.

Lemma shown_files_file_lines files last_directory l :
  shown_files (map (file_line files last_directory) l) = l.
Proof.
  induction l as [|f l IH]; [reflexivity|].
  cbn [map]. rewrite shown_files_cons, IH.
  now destruct (file_line_kind files last_directory f) as (b & c & ->).
Qed.

Lemma shown_directories_file_lines files last_directory l :
  shown_directories (map (file_line files last_directory) l) = [].
Proof.
  induction l as [|f l IH]; [reflexivity|].
  cbn [map]. rewrite shown_directories_cons, IH.
  now destruct (file_line_kind files last_directory f) as (b & c & ->).
Qed.

Lemma shown_directory_lines names entries :
  shown_files (flat_map (directory_lines names) entries)
  = flat_map snd entries
  /\ shown_directories (flat_map (directory_lines names) entries)
     = map fst entries.
Proof.
  induction entries as [|[d files] entries [IH1 IH2]]; [now split|].
  cbn [flat_map map fst snd].
  rewrite shown_files_app, shown_directories_app, IH1, IH2.
  unfold directory_lines.
  rewrite shown_files_cons, shown_directories_cons.
  rewrite shown_files_app, shown_directories_app.
  rewrite shown_files_file_lines, shown_directories_file_lines.
  split.
  - cbn [app]. f_equal. destruct (negb _); cbn; now rewrite app_nil_r.
  - cbn [app]. destruct (negb _); reflexivity.
Qed.

(** X18: what the printed tree shows. The tree starts with the path and
    the line of [organized_files]; its directories are the labels of the
    table in ascending order; under each directory come the files of its
    bucket in ascending order; and, the labels of a dictionary being
    distinct, the files shown are the files of the table, each as often
    as the table holds it. *)
Theorem tree_shows_every_file_once (t : Dict.t string) (path : string) :
  NoDup (Dict.keys t) ->
  print_table_as_tree t path = map render (tree_lines t path)
  /\ firstn 2 (print_table_as_tree t path) = [path; "└── organized_files"]
  /\ shown_directories (tree_lines t path) = sorted (Dict.keys t)
  /\ Sorted (fun s s' => String.leb s s' = true)
            (shown_directories (tree_lines t path))
  /\ shown_files (tree_lines t path)
     = flat_map (fun k => sorted (Dict.get k t)) (sorted (Dict.keys t))
  /\ Permutation (shown_files (tree_lines t path)) (Dict.files t).
Proof.
  intros Hnd.
  assert (Hd : shown_directories (tree_lines t path) = sorted (Dict.keys t)).
  { unfold tree_lines. cbv zeta.
    change (shown_directories (Text ?a :: Text ?b :: ?l)) with (shown_directories l).
    rewrite (proj2 (shown_directory_lines _ _)).
    rewrite !map_map. cbn [fst]. apply map_id. }
  assert (Hf : shown_files (tree_lines t path)
               = flat_map (fun k => sorted (Dict.get k t)) (sorted (Dict.keys t))).
  { unfold tree_lines. cbv zeta.
    change (shown_files (Text ?a :: Text ?b :: ?l)) with (shown_files l).
    rewrite (proj1 (shown_directory_lines _ _)).
    rewrite !flat_map_concat_map, !map_map. reflexivity. }
  split; [reflexivity|]. split; [reflexivity|]. split; [exact Hd|].
  split; [rewrite Hd; apply sorted_Sorted|]. split; [exact Hf|].
  rewrite Hf, <- (flat_map_get t Hnd).
  transitivity (flat_map (fun k => Dict.get k t) (sorted (Dict.keys t))).
  - apply Permutation_flat_map_pointwise. intros k _. apply sorted_perm.
  - apply Permutation_flat_map, sorted_perm.
Qed.

Lemma NoDup_snoc_neq (A : Type) (l : list A) (a x : A) :
  NoDup (l ++ [a]) -> In x l -> x <> a.
Proof.
  intros Hnd Hx ->. apply (NoDup_app_disjoint _ _ _ Hnd a Hx). now left.
Qed.

(** X19: the lines of the files of one directory. A directory with one
    file draws it with the bar and the corner, also under the last
    directory, where no bar continues; a directory with several different
    files draws them without the bar under the last directory and with it
    elsewhere, the last file with the corner and the others with the
    tee. *)
Theorem file_lines_of_a_directory (g : list file) (z : file)
    (last_directory : bool) :
  NoDup (g ++ [z]) ->
  map (file_line (g ++ [z]) last_directory) (g ++ [z]) =
  match g with
  | [] => [FileLine true true z]
  | _ => map (FileLine (negb last_directory) false) g
         ++ [FileLine (negb last_directory) true z]
  end.
Proof.
  intros Hnd. destruct g as [|f g]; [reflexivity|].
  assert (Hlen : (List.length ((f :: g) ++ [z]) =? 1)%nat = false).
  { apply Nat.eqb_neq. rewrite length_app. simpl. lia. }
  assert (Hlast : last ((f :: g) ++ [z]) "" = z) by apply last_last.
  rewrite map_app. f_equal.
  - apply map_ext_in. intros x Hx. unfold file_line. rewrite Hlen, Hlast.
    assert (E : String.eqb x z = false).
    { apply String.eqb_neq. exact (NoDup_snoc_neq _ _ _ _ Hnd Hx). }
    rewrite E. now destruct last_directory.
  - cbn [map]. unfold file_line. rewrite Hlen, Hlast, String.eqb_refl.
    now destruct last_directory.
Qed.

(** X20: the shape of the tree. For a table with distinct labels whose
    greatest label is [k], every directory but [k] is drawn with the tee
    and followed by its files and a bar line, and [k] comes last, drawn
    with the corner and followed by its files only: the tree does not end
    with a bar. *)
Theorem tree_ends_with_last_directory (t : Dict.t string) (path : string)
    (ks : list string) (k : string) :
  NoDup (Dict.keys t) ->
  sorted (Dict.keys t) = ks ++ [k] ->
  tree_lines t path =
  Text path :: Text "└── organized_files"
    :: flat_map (fun k' =>
                   DirectoryLine false k'
                     :: map (file_line (sorted (Dict.get k' t)) false)
                            (sorted (Dict.get k' t))
                     ++ [Bar]) ks
    ++ DirectoryLine true k
         :: map (file_line (sorted (Dict.get k t)) true) (sorted (Dict.get k t)).
Proof.
  intros Hnd Hs. unfold tree_lines. cbv zeta. do 2 f_equal.
  rewrite !map_map. cbn [fst snd].
  assert (Hnames : Dict.keys (map (fun k' => (k', sorted (Dict.get k' t)))
                                  (sorted (Dict.keys t))) = ks ++ [k]).
  { unfold Dict.keys at 1. rewrite map_map. cbn [fst]. now rewrite map_id. }
  rewrite Hnames, Hs.
  assert (Hnd' : NoDup (ks ++ [k])).
  { rewrite <- Hs. apply (Permutation_NoDup (Permutation_sym (sorted_perm _))).
    exact Hnd. }
  rewrite map_app, flat_map_app. f_equal.
  - rewrite flat_map_concat_map, map_map, <- flat_map_concat_map.
    apply flat_map_same. intros k' Hk'. cbn [directory_lines].
    rewrite last_last.
    assert (E : String.eqb k k' = false).
    { apply String.eqb_neq. intros ->.
      exact (NoDup_snoc_neq _ _ _ _ Hnd' Hk' eq_refl). }
    now rewrite E.
  - cbn [map flat_map directory_lines]. rewrite last_last, String.eqb_refl.
    cbn [negb]. now rewrite !app_nil_r.
Qed.

(** * The whole program *)

Section WholeProgram.
Variable sha256_hexdigest : list byte -> string.
Variable fs : file -> option (list byte).
Variable sysname : string.
Variable os_path_abspath : string -> string.
Variable os_path_exists : string -> bool.
Variable os_path_isdir : string -> bool.
Variable os_listdir : option (list file).
Variable os_path_getsize : file -> option Z.

Local Abbreviation program :=
  (main sha256_hexdigest fs sysname os_path_abspath os_path_exists
        os_path_isdir os_listdir os_path_getsize).
Local Abbreviation scan := (group_by_size os_path_isdir os_path_getsize).
Local Abbreviation kept := (eligible os_path_isdir).
Local Abbreviation resolver := (find_duplicate_files sha256_hexdigest fs).

(** The files of the table that the loop of [main] builds. *)
Lemma scan_files l t :
  scan l [] = (t, Returned) -> Permutation (Dict.files t) (filter kept l).
Proof.
  intros Hs. pose proof (group_by_size_returned _ _ _ _ _ Hs) as Hsizes.
  rewrite (group_by_size_ok _ _ _ _ Hsizes) in Hs. inversion Hs.
  exact (files_group_by _ (filter kept l) []).
Qed.

Lemma kept_visible f :
  kept f = true <-> is_hidden_file f = false /\ os_path_isdir f = false.
Proof.
  unfold eligible, is_directory. rewrite andb_true_iff, !negb_true_iff. tauto.
Qed.

(** The labels of the destination table stay distinct. *)
Lemma run_destination_keys fuel src dst r :
  resolver fuel src dst 0 = Some r ->
  NoDup (Dict.keys dst) -> NoDup (Dict.keys (destination r)).
Proof.
  intros Hrun Hnd. apply run_cases in Hrun. cbv zeta in Hrun.
  destruct Hrun as [(_ & ->) | [(_ & _ & t & evs & -> & _)
                   | [(_ & _ & _ & ->) | (_ & _ & _ & ->)]]]; simpl.
  - now apply NoDup_keys_classify_unique.
  - now apply NoDup_keys_classify_unique.
  - now do 2 apply NoDup_keys_classify_unique.
  - apply NoDup_keys_classify_groups. now do 2 apply NoDup_keys_classify_unique.
Qed.

(** The ways in which [main] can go. *)
Lemma main_cases args_path verbose run :
  program args_path verbose = Some run ->
  (exists message, run = mkRun [] [] [] [] (SystemExit message))
  \/ run = mkRun [] [] [] [] UncaughtOSError
  \/ (exists l t e,
        os_listdir = Some l /\ scan l [] = (t, Raised e)
        /\ run = mkRun [] t [] [] (Uncaught e))
  \/ (exists l t r,
        os_listdir = Some l /\ scan l [] = (t, Returned)
        /\ resolver 3 t [] 0 = Some r
        /\ ((exists e, ending r = Raised e
                       /\ run = mkRun [] (source r) (destination r) (events r)
                                      (Uncaught e))
            \/ (ending r = Returned
                /\ run = mkRun (if verbose
                                then print_table_as_tree
                                       (destination r) (os_path_abspath args_path)
                                else [])
                               (source r) (destination r) (events r) Finished))).
Proof.
  unfold main. intros Hmain.
  destruct (negb (is_macOS sysname)).
  { left. inversion Hmain. eauto. }
  destruct (negb (path_exists os_path_exists (os_path_abspath args_path))).
  { left. inversion Hmain. eauto. }
  destruct (negb (is_directory os_path_isdir (os_path_abspath args_path))).
  { left. inversion Hmain. eauto. }
  destruct os_listdir as [l|] eqn:Hl; [|right; left; now inversion Hmain].
  right; right.
  destruct (scan l []) as [t [|e]] eqn:Hs.
  - right. destruct (resolver 3 t [] 0) as [r|] eqn:Hr; [|discriminate].
    exists l, t, r. do 3 (split; [reflexivity || assumption|]).
    destruct (ending r) as [|e] eqn:He.
    + right. split; [reflexivity|]. now inversion Hmain.
    + left. exists e. split; [reflexivity|]. now inversion Hmain.
  - left. exists l, t, e. do 2 (split; [reflexivity || assumption|]).
    now inversion Hmain.
Qed.

(** X21: [main] ends, and prints only at the end. For every environment
    and command line the run of [main] ends with an exit, an exception or
    normally; it has printed nothing unless it ended normally with
    [--verbose], and then it has printed the tree of the final
    classification. In particular nothing of a classification is printed
    when a size or a file cannot be read. *)
Theorem main_prints_only_when_finished (args_path : string) (verbose : bool) :
  exists run,
    program args_path verbose = Some run
    /\ (exit_status run <> Finished -> stdout run = [])
    /\ (verbose = false -> stdout run = [])
    /\ (exit_status run = Finished -> verbose = true ->
        stdout run = print_table_as_tree (organized_files run)
                                         (os_path_abspath args_path)).
Proof.
  assert (Hsome : exists run, program args_path verbose = Some run).
  { unfold main.
    destruct (negb (is_macOS sysname)); [eauto|].
    destruct (negb (path_exists _ _)); [eauto|].
    destruct (negb (is_directory _ _)); [eauto|].
    destruct os_listdir as [l|]; [|eauto].
    destruct (scan l []) as [t [|e]]; [|eauto].
    destruct (returns_level0 sha256_hexdigest fs t []) as [r ->].
    destruct (ending r); eauto. }
  destruct Hsome as [run Hrun]. exists run. split; [assumption|].
  destruct (main_cases _ _ _ Hrun)
    as [[m ->] | [-> | [(l & t & e & _ & _ & ->)
       | (l & t & r & _ & _ & _ & [(e & _ & ->) | (_ & ->)])]]]; simpl;
    repeat split; try reflexivity; try congruence.
  - intros ->. reflexivity.
  - intros _ ->. reflexivity.
Qed.

(** X22: the tree that [main] prints. When [main] ends normally with
    [--verbose] over a listing without repeated names, the lines printed
    are the tree of the final classification, and the files it shows are
    the entries of the listing that are neither hidden nor directories,
    each shown once; hidden entries and directories are not shown. *)
Theorem main_shows_every_visible_file (args_path : string) (l : list file)
    (run : program_run) :
  program args_path true = Some run ->
  exit_status run = Finished ->
  os_listdir = Some l ->
  NoDup l ->
  stdout run =
    map render (tree_lines (organized_files run) (os_path_abspath args_path))
  /\ Permutation
       (shown_files
          (tree_lines (organized_files run) (os_path_abspath args_path)))
       (filter kept l)
  /\ NoDup (shown_files
              (tree_lines (organized_files run) (os_path_abspath args_path))).
Proof.
  intros Hrun Hfin Hl Hnd.
  destruct (main_cases _ _ _ Hrun)
    as [[m ->] | [-> | [(l' & t & e & _ & _ & ->)
       | (l' & t & r & Hl' & Hs & Hr & [(e & _ & ->) | (Hend & ->)])]]];
    try discriminate.
  rewrite Hl in Hl'. inversion Hl'; subst l'. cbn [stdout organized_files].
  split; [reflexivity|].
  assert (Hp : Permutation
                 (shown_files (tree_lines (destination r)
                                          (os_path_abspath args_path)))
                 (filter kept l)).
  { assert (Hkeys : NoDup (Dict.keys (destination r))).
    { apply (run_destination_keys _ _ _ _ Hr). constructor. }
    assert (Hshown : Permutation
                       (shown_files (tree_lines (destination r)
                                                (os_path_abspath args_path)))
                       (Dict.files (destination r))).
    { unfold tree_lines. cbv zeta. rewrite !shown_files_cons. cbn [app].
      rewrite (proj1 (shown_directory_lines _ _)).
      rewrite !flat_map_concat_map, !map_map. cbn [snd].
      rewrite <- !flat_map_concat_map, <- (flat_map_get _ Hkeys).
      transitivity (flat_map (fun k => Dict.get k (destination r))
                             (sorted (Dict.keys (destination r)))).
      - apply Permutation_flat_map_pointwise. intros k _. apply sorted_perm.
      - apply Permutation_flat_map, sorted_perm. }
    rewrite Hshown.
    rewrite (find_duplicate_files_files sha256_hexdigest fs _ _ _ _ _ Hr Hend).
    cbn [Dict.files map concat app]. now apply scan_files. }
  split; [exact Hp|].
  apply (Permutation_NoDup (Permutation_sym Hp)). now apply NoDup_filter.
Qed.

(** X23: what [main] opens. Every file that a run of [main] opens to hash
    it is an entry of the listing that is neither hidden nor a directory,
    and it is hashed at iteration 0 or 1 only. *)
Theorem main_hashes_only_visible_files (args_path : string) (verbose : bool)
    (l : list file) (run : program_run) (f : file) (i : Z) :
  program args_path verbose = Some run ->
  os_listdir = Some l ->
  In (Hash f i) (trace run) ->
  In f l /\ is_hidden_file f = false /\ os_path_isdir f = false
  /\ (i = 0 \/ i = 1).
Proof.
  intros Hrun Hl Hin.
  destruct (main_cases _ _ _ Hrun)
    as [[m ->] | [-> | [(l' & t & e & _ & _ & ->)
       | (l' & t & r & Hl' & Hs & Hr & Hcase)]]];
    try contradiction.
  rewrite Hl in Hl'. inversion Hl'; subst l'.
  assert (Hin' : In (Hash f i) (events r)).
  { destruct Hcase as [(e & _ & ->) | (_ & ->)]; exact Hin. }
  assert (Hf : In f (ambiguous t) /\ (i = 0 \/ i = 1)).
  { destruct (run_hashes sha256_hexdigest fs _ _ _ _ _ _ Hr Hin')
      as [[-> Ha]|(-> & Ha & _)].
    - split; [assumption | now left].
    - split; [|now right].
      apply (level1_files sha256_hexdigest fs). now apply ambiguous_incl. }
  destruct Hf as [Ha Hi].
  apply ambiguous_incl in Ha. apply (Permutation_in _ (scan_files _ _ Hs)) in Ha.
  apply filter_In in Ha. destruct Ha as [Hfl Hk]. apply kept_visible in Hk.
  tauto.
Qed.

End WholeProgram.

(** * The further properties on the example directories *)

Lemma tour_two_sizes_single k g :
  In (k, g) Tour.two_sizes -> List.length g = 1%nat.
Proof.
  intros [E|[E|[]]]; inversion E; reflexivity.
Qed.

Lemma tour_listing_NoDup : NoDup Tour.listing.
Proof.
  unfold Tour.listing. repeat constructor; cbn; intuition discriminate.
Qed.

Lemma tour_run :
  main Sample.hexdigest Sample.fs "Darwin" Tour.abspath Tour.exists_ Tour.isdir
       (Some Tour.listing) Tour.getsize "/d" true
  = Some Tour.verbose_run.
Proof. vm_compute. reflexivity. Qed.

Lemma sample_c_txt_unique g h :
  In g (Dict.files Sample.hashed_files) ->
  full_digest Sample.hexdigest Sample.fs g = Some h ->
  full_digest Sample.hexdigest Sample.fs "c.txt" = Some h ->
  g = "c.txt".
Proof.
  cbn. intros Hg Hh Hc.
  repeat (destruct Hg as [<-|Hg];
          [try reflexivity; vm_compute in Hh, Hc; congruence|]).
  contradiction.
Qed.


Lemma sample_destination_keys : NoDup (Dict.keys (destination Sample.run)).
Proof.
  cbn. repeat constructor; cbn; intuition discriminate.
Qed.

Lemma all_unique_at_level_0_witness :
  find_duplicate_files Sample.hexdigest Sample.fs 1 Tour.two_sizes [] 0 =
  Some (mkResult Tour.two_sizes
          (classify_unique (Dict.files Tour.two_sizes) [])
          [Enter 0 Tour.two_sizes] Returned).
Proof.
  exact (all_unique_at_level_0 Sample.hexdigest Sample.fs 0 Tour.two_sizes []
           tour_two_sizes_single).
Defined.

Lemma empty_group_at_level_2_witness :
  find_duplicate_files Sample.hexdigest Sample.fs 1
    ([(KStr "h", ["a.txt"; "b.txt"])] ++ (KStr "e", []) :: [(KStr "g", ["c.txt"])])
    [] 2
  = Some (mkResult
            ([(KStr "h", ["a.txt"; "b.txt"])] ++ (KStr "e", [])
               :: [(KStr "g", ["c.txt"])])
            (fst (classify_groups [(KStr "h", ["a.txt"; "b.txt"])] []))
            [Enter 2 ([(KStr "h", ["a.txt"; "b.txt"])] ++ (KStr "e", [])
                        :: [(KStr "g", ["c.txt"])])]
            (Raised (IndexError "list index out of range"))).
Proof.
  apply (empty_group_at_level_2 Sample.hexdigest Sample.fs 0
           [(KStr "h", ["a.txt"; "b.txt"])] [(KStr "g", ["c.txt"])] (KStr "e") []).
  intros k g [E|[]]. inversion E. discriminate.
Defined.

Lemma invalid_iteration_raises_witness :
  find_duplicate_files Sample.hexdigest Sample.fs 1 Sample.hashed_files [] 7 =
  Some (mkResult [] (classify_unique (singletons Sample.hashed_files) [])
          [Enter 7 Sample.hashed_files; Hash "a.txt" 7]
          (Raised (Exception "Error encountered in get_hash()"))).
Proof.
  apply (invalid_iteration_raises Sample.hexdigest Sample.fs 0
           Sample.hashed_files [] 7 "a.txt" ["b.txt"; "c.txt"] Sample.X);
    (discriminate || reflexivity).
Defined.

Lemma only_own_label_or_duplicate_witness :
  In "a.txt" (Dict.get "txt-files" [])
  \/ (In "a.txt" (Dict.files Sample.hashed_files)
      /\ ("txt-files" = extension_label "a.txt"
          \/ "txt-files" = "duplicate-files")).
Proof.
  apply (only_own_label_or_duplicate Sample.hexdigest Sample.fs 3
           Sample.hashed_files [] 0 Sample.run "txt-files" "a.txt" sample_run).
  cbn. right. left. reflexivity.
Defined.

Lemma duplicate_has_survivor_witness :
  In "b.txt" (Dict.get "duplicate-files" [])
  \/ extension_label "b.txt" = "duplicate-files"
  \/ exists first h,
       In first (Dict.get (extension_label first) (destination Sample.run))
       /\ full_digest Sample.hexdigest Sample.fs first = Some h
       /\ full_digest Sample.hexdigest Sample.fs "b.txt" = Some h
       /\ In first (Dict.files Sample.hashed_files)
       /\ (NoDup (Dict.files Sample.hashed_files) -> first <> "b.txt").
Proof.
  apply (duplicate_has_survivor Sample.hexdigest Sample.fs 3
           Sample.hashed_files [] Sample.run "b.txt" sample_run).
  cbn. left. reflexivity.
Defined.

Lemma unique_contents_classified_witness :
  In "c.txt" (Dict.get (extension_label "c.txt") (destination Sample.run)).
Proof.
  apply (unique_contents_classified Sample.hexdigest Sample.fs 3
           Sample.hashed_files [] Sample.run "c.txt" sample_run eq_refl).
  - cbn. do 2 right. left. reflexivity.
  - exact sample_c_txt_unique.
Defined.


Lemma pass_stops_at_first_unreadable_witness :
  rehash_and_add_to_table Sample.hexdigest Sample.fs
    (["a.txt"] ++ "locked.txt" :: ["b.txt"]) [] 0
  = (regroup (digest_key Sample.hexdigest Sample.fs 0) ["a.txt"] [],
     map (fun x => Hash x 0) (["a.txt"] ++ ["locked.txt"]),
     Raised (Exception "Unable to read current file")).
Proof.
  apply (pass_stops_at_first_unreadable Sample.hexdigest Sample.fs
           ["a.txt"] ["b.txt"] "locked.txt" [] 0).
  - left. reflexivity.
  - intros x [<-|[]]. discriminate.
  - reflexivity.
Defined.

Lemma pass_appends_in_order_witness :
  Dict.get (KStr "XXXXXXXXXX") (fst (fst Sample.pass)) = ["a.txt"; "b.txt"]
  /\ snd (fst Sample.pass) = [Hash "a.txt" 0; Hash "b.txt" 0; Hash "c.txt" 0].
Proof.
  destruct (pass_appends_in_order Sample.hexdigest Sample.fs
              ["a.txt"; "b.txt"; "c.txt"] [] (fst (fst Sample.pass)) 0
              (snd (fst Sample.pass)) eq_refl) as (_ & Hget & _ & Hevs).
  split; [exact (Hget (KStr "XXXXXXXXXX")) | exact Hevs].
Defined.

Lemma small_file_same_digest_witness :
  get_hash Sample.hexdigest Sample.X 0 = get_hash Sample.hexdigest Sample.X 1.
Proof.
  apply (small_file_same_digest Sample.hexdigest Sample.X).
  vm_compute. discriminate.
Defined.


Lemma trailing_dot_label_witness :
  snd (splitext "notes.") = "."
  /\ add_unique_file_to_table "notes." [] = Dict.append "-files" "notes." [].
Proof.
  apply (trailing_dot_label "notes" []); (discriminate || reflexivity).
Defined.

Lemma dot_file_label_witness :
  splitext ".bashrc" = (".bashrc", "")
  /\ add_unique_file_to_table ".bashrc" []
     = Dict.append "no-extension-files" ".bashrc" [].
Proof.
  exact (dot_file_label "bashrc" [] eq_refl eq_refl).
Defined.

Lemma duplicate_extension_collides_witness :
  extension_label "old.duplicate" = "duplicate-files"
  /\ In "old.duplicate"
        (Dict.get "duplicate-files"
           (classify_unique (Dict.files Tour.odd_name) [])).
Proof.
  apply (duplicate_extension_collides Sample.hexdigest Sample.fs 1
           Tour.odd_name []
           (mkResult Tour.odd_name (classify_unique (Dict.files Tour.odd_name) [])
                     [Enter 0 Tour.odd_name] Returned)
           "old" (KInt 3)).
  - discriminate.
  - reflexivity.
  - reflexivity.
  - reflexivity.
  - left. reflexivity.
Defined.

Lemma tour_sizes f c :
  Sample.fs f = Some c -> Tour.getsize f = Some (Z.of_nat (List.length c)).
Proof. unfold Tour.getsize. now intros ->. Qed.

Lemma scanned_table_is_size_grouping_witness :
  NoDup (Dict.keys Sample.hashed_files)
  /\ NoDup (Dict.files Sample.hashed_files)
  /\ size_keyed Sample.fs Sample.hashed_files.
Proof.
  destruct (scanned_table_is_size_grouping Sample.fs Tour.isdir Tour.getsize
              Tour.listing Sample.hashed_files tour_listing_NoDup eq_refl)
    as (Hkeys & Hfiles & _ & _ & _ & Hsize).
  split; [exact Hkeys|]. split; [exact Hfiles|]. exact (Hsize tour_sizes).
Defined.

Lemma scan_stops_at_first_unknown_size_witness :
  group_by_size Tour.isdir Tour.getsize
    (["a.txt"] ++ "locked.txt" :: ["d.log"]) []
  = (group_by (size_key Tour.getsize) (filter (eligible Tour.isdir) ["a.txt"]) [],
     Raised (Exception "Unable to obtain the current file's size")).
Proof.
  apply (scan_stops_at_first_unknown_size Tour.isdir Tour.getsize
           ["a.txt"] ["d.log"] "locked.txt" []).
  - intros x [<-|[]] _. discriminate.
  - reflexivity.
  - reflexivity.
Defined.

Lemma tree_shows_every_file_once_witness :
  shown_directories (tree_lines (destination Sample.run) "/d")
  = ["duplicate-files"; "log-files"; "txt-files"]
  /\ Permutation (shown_files (tree_lines (destination Sample.run) "/d"))
                 (Dict.files (destination Sample.run)).
Proof.
  destruct (tree_shows_every_file_once (destination Sample.run) "/d"
              sample_destination_keys) as (_ & _ & Hd & _ & _ & Hp).
  split; [exact Hd | exact Hp].
Defined.

Lemma file_lines_of_a_directory_witness :
  map (file_line (["a.txt"] ++ ["c.txt"]) true) (["a.txt"] ++ ["c.txt"])
  = [FileLine false false "a.txt"; FileLine false true "c.txt"].
Proof.
  apply (file_lines_of_a_directory ["a.txt"] "c.txt" true).
  cbn. repeat constructor; cbn; intuition discriminate.
Defined.

Lemma tree_ends_with_last_directory_witness :
  tree_lines (destination Sample.run) "/d"
  = [Text "/d"; Text "└── organized_files";
     DirectoryLine false "duplicate-files"; FileLine true true "b.txt"; Bar;
     DirectoryLine false "log-files"; FileLine true true "d.log"; Bar;
     DirectoryLine true "txt-files"; FileLine false false "a.txt";
     FileLine false true "c.txt"].
Proof.
  exact (tree_ends_with_last_directory (destination Sample.run) "/d"
           ["duplicate-files"; "log-files"] "txt-files"
           sample_destination_keys eq_refl).
Defined.

Lemma main_shows_every_visible_file_witness :
  stdout Tour.verbose_run
  = map render (tree_lines (organized_files Tour.verbose_run) "/d")
  /\ Permutation
       (shown_files (tree_lines (organized_files Tour.verbose_run) "/d"))
       ["a.txt"; "b.txt"; "c.txt"; "d.log"]
  /\ NoDup (shown_files (tree_lines (organized_files Tour.verbose_run) "/d")).
Proof.
  exact (main_shows_every_visible_file Sample.hexdigest Sample.fs "Darwin"
           Tour.abspath Tour.exists_ Tour.isdir (Some Tour.listing) Tour.getsize
           "/d" Tour.listing Tour.verbose_run
           tour_run eq_refl eq_refl tour_listing_NoDup).
Defined.

Lemma main_hashes_only_visible_files_witness :
  In "b.txt" Tour.listing /\ is_hidden_file "b.txt" = false
  /\ Tour.isdir "b.txt" = false /\ (1 = 0 \/ 1 = 1).
Proof.
  apply (main_hashes_only_visible_files Sample.hexdigest Sample.fs "Darwin"
           Tour.abspath Tour.exists_ Tour.isdir (Some Tour.listing) Tour.getsize
           "/d" true Tour.listing Tour.verbose_run "b.txt" 1
           tour_run eq_refl).
  cbn. do 6 right. left. reflexivity.
Defined.
